(** * Task Management API: tasks, tags, filtered listing, partial update, soft delete

    A shallow embedding of [app/api/tasks.py], [app/schemas/task.py],
    [app/models/task.py] and the validation handler of [app/main.py].

    Conventions of the model.
    - Python [int] is [Z]; [date] is a day number in [Z]; [datetime] is a
      number of microseconds in [Z].
    - Python [str] is [string], one character per element; [strip] and
      [lower] follow Python on the ASCII range.  String columns are
      unbounded text (their declared lengths are not enforced by every
      store, SQLite among them).
    - The relational store is explicit state: the rows of [tasks], the rows
      of [tags], and the two id sequences.  A [Task.t] carries the tags that
      [task_tags] relates to it, the way the ORM instance exposes them
      through [task.tags].
    - A request is one transaction: a handler either returns [Ok] with the
      next store, or an error, and then the store it was given stands.
    - What a request reads from outside the program is an input of the
      request: the clock ([date.today()], each call of [utc_now()]) and the
      order in which the store hands back the rows of [task_tags]. *)

From Stdlib Require Import ZArith Ascii String.
From stdpp Require Import base decidable option list sorting strings gmap pretty.

Local Open Scope Z_scope.

(** ** Python string operations used by the handlers *)

Module Str.

(** [str.isspace] on the ASCII range: TAB, LF, VT, FF, CR, FS, GS, RS, US
    and SPACE. *)
Definition isspace (c : ascii) : bool :=
  let n := nat_of_ascii c in
  ((9 <=? n)%nat && (n <=? 13)%nat) || ((28 <=? n)%nat && (n <=? 32)%nat).

Fixpoint lstrip (s : string) : string :=
  match s with
  | EmptyString => EmptyString
  | String c s' => if isspace c then lstrip s' else s
  end.

Definition rstrip (s : string) : string := String.rev (lstrip (String.rev s)).

(** [s.strip()] *)
Definition strip (s : string) : string := rstrip (lstrip s).

Definition lower_char (c : ascii) : ascii :=
  let n := nat_of_ascii c in
  if ((65 <=? n)%nat && (n <=? 90)%nat) then ascii_of_nat (n + 32) else c.

(** [s.lower()] *)
Fixpoint lower (s : string) : string :=
  match s with
  | EmptyString => EmptyString
  | String c s' => String (lower_char c) (lower s')
  end.

(** [s.split(sep)] for a one-character separator: never returns [[]]. *)
Fixpoint split (sep : ascii) (s : string) : list string :=
  match s with
  | EmptyString => [EmptyString]
  | String c s' =>
      if Ascii.eqb c sep then EmptyString :: split sep s'
      else match split sep s' with
           | w :: ws => String c w :: ws
           | [] => [String c EmptyString]
           end
  end.

(** [sep.join(parts)] *)
Fixpoint join (sep : string) (parts : list string) : string :=
  match parts with
  | [] => EmptyString
  | [p] => p
  | p :: ps => p +:+ sep +:+ join sep ps
  end.

End Str.

(** ** Data model ([app/models/task.py]) *)

Module Tag.
Record t := mk { id : Z; name : string }.
End Tag.

Module Task.
Record t := mk {
  id : Z;
  title : string;
  description : option string;
  priority : Z;
  due_date : Z;
  completed : bool;
  is_deleted : bool;
  created_at : Z;
  updated_at : Z;
  tags : list Tag.t
}.

(** The columns of a row of [tasks]; [tags] is a relationship, not a
    column. *)
Definition columns (x : t) :=
  (id x, title x, description x, priority x, due_date x,
   completed x, is_deleted x, created_at x, updated_at x).
End Task.

#[global] Instance Tag_eq_dec : EqDecision Tag.t.
Proof. solve_decision. Defined.

#[global] Instance Task_eq_dec : EqDecision Task.t.
Proof. solve_decision. Defined.

(** The store: both tables in insertion order and the two id sequences. *)
Record DB := mkDB {
  db_tasks : list Task.t;
  db_tags : list Tag.t;
  next_task_id : Z;
  next_tag_id : Z
}.

Definition empty_db : DB := mkDB [] [] 1 1.

(** What a request reads from outside the program.

    [utc_now()] is called once per column that defaults to it: an INSERT
    into [tasks] calls it for [created_at] and again for [updated_at]; an
    UPDATE calls it once, for [onupdate].  [utc_now] is the first reading of
    the request and [utc_now_2] the second.

    The rows of [task_tags] carry no order.  The unit of work inserts them
    in an order of its own and [task.tags] is reloaded by a SELECT with no
    ORDER BY, so the order of a collection after a write is the store's
    choice: [row_rank] is the key by which the rows written by this request
    come back, lowest first.  Every order of a collection is the one of some
    [row_rank]. *)
Record Clock := Build_Clock {
  today : Z;                (* date.today() *)
  utc_now : Z;              (* utc_now(), first call *)
  utc_now_2 : Z;            (* utc_now(), second call *)
  row_rank : Tag.t → Z      (* position of a row of task_tags among those read back *)
}.

(** A clock whose readings of [utc_now()] agree, with a store that hands the
    rows back by tag id. *)
Definition mkClock (today utc_now : Z) : Clock :=
  Build_Clock today utc_now utc_now Tag.id.

Definition placed_before (clock : Clock) (a b : Tag.t) : Prop :=
  row_rank clock a ≤ row_rank clock b.

#[global] Instance placed_before_dec clock : RelDecision (placed_before clock).
Proof. intros a b. unfold placed_before. apply _. Defined.

(** The rank that hands the tags back in the order of [l]: the position of a
    tag in [l]. *)
Definition rank_in (l : list Tag.t) (g : Tag.t) : Z :=
  match list_find (λ y, y = g) l with
  | Some (i, _) => Z.of_nat i
  | None => 0
  end.

(** ** Schemas ([app/schemas/task.py]) *)

Module TaskCreate.
Record t := mk {
  title : string;
  description : option string;
  priority : Z;
  due_date : Z;
  tags : option (list string)
}.
End TaskCreate.

(** A [TaskUpdate] field is unset ([None]), or set to null ([Some None]) or
    to a value ([Some (Some v)]): pydantic records which fields the body
    named, and [model_dump(exclude_unset=True)] keeps exactly those. *)
Module TaskUpdate.
Record t := mk {
  title : option (option string);
  description : option (option string);
  priority : option (option Z);
  due_date : option (option Z);
  completed : option (option bool);
  tags : option (option (list string))
}.
End TaskUpdate.

Module TaskResponse.
Record t := mk {
  id : Z;
  title : string;
  description : option string;
  priority : Z;
  due_date : Z;
  completed : bool;
  tags : list string;
  created_at : Z;
  updated_at : Z
}.

Definition from_orm_with_tags (task : Task.t) : t :=
  mk (Task.id task) (Task.title task) (Task.description task)
     (Task.priority task) (Task.due_date task) (Task.completed task)
     (Tag.name <$> Task.tags task)
     (Task.created_at task) (Task.updated_at task).
End TaskResponse.

Module PaginatedTaskResponse.
Record t := mk {
  total : Z;
  limit : Z;
  offset : Z;
  tasks : list TaskResponse.t
}.
End PaginatedTaskResponse.

(** ** Outcomes of a request *)

Inductive Result (A : Type) : Type :=
  | Ok (a : A)                                  (* 2xx *)
  | NotFound (task_id : Z)                      (* HTTPException 404 *)
  | ValidationFailed (details : gmap string string)  (* 422 *)
  | IntegrityError.                             (* the store refused the commit *)
Arguments Ok {A} a.
Arguments NotFound {A} task_id.
Arguments ValidationFailed {A} details.
Arguments IntegrityError {A}.

(** The body of a 2xx response, if that is what was returned. *)
Definition ok {A} (r : Result A) : option A :=
  match r with
  | Ok a => Some a
  | _ => None
  end.

(** ** Tag resolver ([get_or_create_tags]) *)

(** [db.query(Tag).filter(Tag.name == name).first()] *)
Definition find_tag (name : string) (db : DB) : option Tag.t :=
  head (filter (λ g, Tag.name g = name) (db_tags db)).

(** [db.add(tag); db.flush()]: the row takes the next id of the sequence. *)
Definition add_tag (name : string) (db : DB) : DB * Tag.t :=
  let tag := Tag.mk (next_tag_id db) name in
  (mkDB (db_tasks db) (db_tags db ++ [tag]) (next_task_id db) (next_tag_id db + 1),
   tag).

Fixpoint get_or_create_tags (db : DB) (tag_names : list string)
  : DB * list Tag.t :=
  match tag_names with
  | [] => (db, [])
  | name :: rest =>
      let name := Str.lower (Str.strip name) in
      if decide (name = "") then get_or_create_tags db rest
      else
        let '(db1, tag) :=
          match find_tag name db with
          | Some tag => (db, tag)
          | None => add_tag name db
          end in
        let '(db2, tags) := get_or_create_tags db1 rest in
        (db2, tag :: tags)
  end.

(** ** The unit of work on [task.tags]

    [task_tags] has the composite primary key [(task_id, tag_id)].  When an
    instance is flushed after [task.tags = new], the unit of work brings the
    rows of the task to one row per tag of [new]: a tag that [new] holds
    more than once (the resolver returns the same [Tag] for two names that
    normalize alike) gets one row.  [db.refresh(task)] then reloads the
    collection from the rows, in the order the store hands them back. *)
Definition flush_tags (clock : Clock) (new : list Tag.t) : list Tag.t :=
  merge_sort (placed_before clock) (remove_dups new).

(** ** Create ([create_task]) *)

Definition insert_task (task : Task.t) (db : DB) : DB :=
  mkDB (db_tasks db ++ [task]) (db_tags db) (next_task_id db + 1) (next_tag_id db).

Definition create_task (clock : Clock) (task_data : TaskCreate.t) (db : DB)
  : Result (DB * TaskResponse.t) :=
  let '(db1, tags) :=
    match TaskCreate.tags task_data with
    | Some ((_ :: _) as names) => get_or_create_tags db names   (* if task_data.tags: *)
    | _ => (db, [])
    end in
  let task :=
    Task.mk (next_task_id db1)
            (TaskCreate.title task_data) (TaskCreate.description task_data)
            (TaskCreate.priority task_data) (TaskCreate.due_date task_data)
            false false (utc_now clock) (utc_now_2 clock)
            (flush_tags clock tags) in
  Ok (insert_task task db1, TaskResponse.from_orm_with_tags task).

(** ** Get by id ([get_task]) *)

(** [db.query(Task).filter(Task.id == task_id, Task.is_deleted == False).first()] *)
Definition find_task (task_id : Z) (db : DB) : option Task.t :=
  head (filter (λ x, Task.id x = task_id ∧ Task.is_deleted x = false) (db_tasks db)).

Definition get_task (task_id : Z) (db : DB) : Result TaskResponse.t :=
  match find_task task_id db with
  | None => NotFound task_id
  | Some task => Ok (TaskResponse.from_orm_with_tags task)
  end.

(** ** Listing ([list_tasks]) *)

(** [query.join(Task.tags)]: one row per pair of a task and one of its tags. *)
Definition join_tags (rows : list Task.t) : list (Task.t * Tag.t) :=
  rows ≫= λ x, (λ g, (x, g)) <$> Task.tags x.

(** [SELECT DISTINCT] on the columns of [tasks]. *)
Fixpoint distinct (rows : list Task.t) : list Task.t :=
  match rows with
  | [] => []
  | x :: rest =>
      if decide (Task.columns x ∈ Task.columns <$> rest) then distinct rest
      else x :: distinct rest
  end.

(** [[t.strip().lower() for t in tags.split(",") if t.strip()]] *)
Definition parse_tag_names (tags : string) : list string :=
  (λ s, Str.lower (Str.strip s)) <$>
    filter (λ s, Str.strip s ≠ "") (Str.split "," tags).

(** The query of [list_tasks] before ordering and pagination. *)
Definition list_query (completed : option bool) (priority : option Z)
    (tags : option string) (db : DB) : list Task.t :=
  let query := filter (λ x, Task.is_deleted x = false) (db_tasks db) in
  let query :=
    match completed with
    | Some c => filter (λ x, Task.completed x = c) query
    | None => query
    end in
  let query :=
    match priority with
    | Some p => filter (λ x, Task.priority x = p) query
    | None => query
    end in
  match tags with
  | Some ((String _ _) as tags) =>                              (* if tags: *)
      match parse_tag_names tags with
      | (_ :: _) as tag_names =>                                (* if tag_names: *)
          distinct (fst <$> filter (λ r, Tag.name r.2 ∈ tag_names) (join_tags query))
      | [] => query
      end
  | _ => query
  end.

(** [ORDER BY tasks.created_at DESC] names no second key: among rows of equal
    [created_at] the store is free, and may choose differently from one
    execution to the next.  [list_tasks] therefore takes the ordering the
    store applied as [order_by]; the store's contract is
    [orders_by_created_at_desc]. *)
Definition created_at_desc (a b : Task.t) : Prop :=
  Task.created_at b ≤ Task.created_at a.

#[global] Instance created_at_desc_dec : RelDecision created_at_desc.
Proof. intros a b. unfold created_at_desc. apply _. Defined.

Definition orders_by_created_at_desc (order_by : list Task.t → list Task.t) : Prop :=
  ∀ rows, order_by rows ≡ₚ rows ∧ Sorted created_at_desc (order_by rows).

Definition list_tasks (order_by : list Task.t → list Task.t)
    (completed : option bool) (priority : option Z) (tags : option string)
    (limit offset : Z) (db : DB) : PaginatedTaskResponse.t :=
  let query := list_query completed priority tags db in
  let total := Z.of_nat (length query) in
  let tasks := take (Z.to_nat limit) (drop (Z.to_nat offset) (order_by query)) in
  PaginatedTaskResponse.mk total limit offset
    (TaskResponse.from_orm_with_tags <$> tasks).

(** ** Partial update ([update_task]) *)

(** One item of [task_data.model_dump(exclude_unset=True)]. *)
Inductive FieldValue :=
  | F_title (v : option string)
  | F_description (v : option string)
  | F_priority (v : option Z)
  | F_due_date (v : option Z)
  | F_completed (v : option bool)
  | F_tags (v : option (list string)).

(** The items come in the order the schema declares the fields. *)
Definition model_dump_exclude_unset (d : TaskUpdate.t) : list FieldValue :=
  omap (λ o, o)
    [ F_title <$> TaskUpdate.title d;
      F_description <$> TaskUpdate.description d;
      F_priority <$> TaskUpdate.priority d;
      F_due_date <$> TaskUpdate.due_date d;
      F_completed <$> TaskUpdate.completed d;
      F_tags <$> TaskUpdate.tags d ].

(** The attributes of the loaded instance while the handler runs: [setattr]
    stores whatever it is given, [None] included; [tags] is [Some] once the
    collection has been assigned. *)
Module Attrs.
Record t := mk {
  title : option string;
  description : option string;
  priority : option Z;
  due_date : option Z;
  completed : option bool;
  tags : option (list Tag.t)
}.

Definition of_task (x : Task.t) : t :=
  mk (Some (Task.title x)) (Task.description x) (Some (Task.priority x))
     (Some (Task.due_date x)) (Some (Task.completed x)) None.
End Attrs.

(** The body of the loop over [update_data.items()]. *)
Definition set_field (st : DB * Attrs.t) (item : FieldValue) : DB * Attrs.t :=
  let '(db, a) := st in
  match item with
  | F_tags None => (db, a)
  | F_tags (Some names) =>
      let '(db1, tags) := get_or_create_tags db names in
      (db1, Attrs.mk (Attrs.title a) (Attrs.description a) (Attrs.priority a)
                     (Attrs.due_date a) (Attrs.completed a) (Some tags))
  | F_title v =>
      (db, Attrs.mk v (Attrs.description a) (Attrs.priority a)
                    (Attrs.due_date a) (Attrs.completed a) (Attrs.tags a))
  | F_description v =>
      (db, Attrs.mk (Attrs.title a) v (Attrs.priority a)
                    (Attrs.due_date a) (Attrs.completed a) (Attrs.tags a))
  | F_priority v =>
      (db, Attrs.mk (Attrs.title a) (Attrs.description a) v
                    (Attrs.due_date a) (Attrs.completed a) (Attrs.tags a))
  | F_due_date v =>
      (db, Attrs.mk (Attrs.title a) (Attrs.description a) (Attrs.priority a)
                    v (Attrs.completed a) (Attrs.tags a))
  | F_completed v =>
      (db, Attrs.mk (Attrs.title a) (Attrs.description a) (Attrs.priority a)
                    (Attrs.due_date a) v (Attrs.tags a))
  end.

(** Flushing the instance: [title], [priority], [due_date] and [completed]
    are [nullable=False]; an UPDATE is emitted, and [onupdate=utc_now] fires,
    only when some column changed. *)
Definition flush_task (clock : Clock) (row : Task.t) (a : Attrs.t) : option Task.t :=
  title ← Attrs.title a;
  priority ← Attrs.priority a;
  due_date ← Attrs.due_date a;
  completed ← Attrs.completed a;
  let tags := match Attrs.tags a with
              | Some new => flush_tags clock new
              | None => Task.tags row
              end in
  let updated_at :=
    if decide ((title, Attrs.description a, priority, due_date, completed) =
               (Task.title row, Task.description row, Task.priority row,
                Task.due_date row, Task.completed row))
    then Task.updated_at row else utc_now clock in
  Some (Task.mk (Task.id row) title (Attrs.description a) priority due_date
                completed (Task.is_deleted row) (Task.created_at row)
                updated_at tags).

(** [UPDATE tasks SET ... WHERE tasks.id = ?] *)
Definition replace_task (row : Task.t) (db : DB) : DB :=
  mkDB ((λ x, if decide (Task.id x = Task.id row) then row else x) <$> db_tasks db)
       (db_tags db) (next_task_id db) (next_tag_id db).

Definition update_task (clock : Clock) (task_id : Z) (task_data : TaskUpdate.t)
    (db : DB) : Result (DB * TaskResponse.t) :=
  match find_task task_id db with
  | None => NotFound task_id
  | Some task =>
      let update_data := model_dump_exclude_unset task_data in
      let '(db1, a) := foldl set_field (db, Attrs.of_task task) update_data in
      match flush_task clock task a with
      | None => IntegrityError
      | Some task' =>
          Ok (replace_task task' db1, TaskResponse.from_orm_with_tags task')
      end
  end.

(** ** Soft delete ([delete_task]) *)

Definition delete_task (clock : Clock) (task_id : Z) (db : DB) : Result DB :=
  match find_task task_id db with
  | None => NotFound task_id
  | Some task =>
      let task' :=
        Task.mk (Task.id task) (Task.title task) (Task.description task)
                (Task.priority task) (Task.due_date task) (Task.completed task)
                true (Task.created_at task) (utc_now clock) (Task.tags task) in
      Ok (replace_task task' db)
  end.

(** ** Request validation ([app/schemas/task.py], [Query(...)] bounds) *)

(** One entry of [exc.errors()]. *)
Module ValidationError.
Record t := mk { loc : list string; msg : string }.
End ValidationError.

(** [Field(min_length=lo, max_length=hi)] on a [str]. *)
Definition check_length (lo hi : nat) (s : string) : option string :=
  if decide (String.length s < lo)%nat then
    Some "String should have at least 1 character"
  else if decide (hi < String.length s)%nat then
    Some "String should have at most 200 characters"
  else None.

(** [ge=lo] on an [int]. *)
Definition check_ge (lo : Z) (msg : string) (v : Z) : option string :=
  if decide (v < lo) then Some msg else None.

(** [ge=lo, le=hi] on an [int]. *)
Definition check_range (lo hi : Z) (ge_msg le_msg : string) (v : Z) : option string :=
  if decide (v < lo) then Some ge_msg
  else if decide (hi < v) then Some le_msg
  else None.

Definition check_priority : Z → option string :=
  check_range 1 5 "Input should be greater than or equal to 1"
                  "Input should be less than or equal to 5".

(** [due_date_not_in_past] *)
Definition due_date_not_in_past (today v : Z) : option string :=
  if decide (v < today) then Some "Value error, due_date cannot be in the past"
  else None.

Definition field_errors (loc : list string) (r : option string)
  : list ValidationError.t :=
  match r with
  | Some msg => [ValidationError.mk loc msg]
  | None => []
  end.

Definition validate_TaskCreate (today : Z) (body : TaskCreate.t)
  : list ValidationError.t :=
  field_errors ["body"; "title"] (check_length 1 200 (TaskCreate.title body)) ++
  field_errors ["body"; "priority"] (check_priority (TaskCreate.priority body)) ++
  field_errors ["body"; "due_date"]
    (due_date_not_in_past today (TaskCreate.due_date body)).

(** An [Optional] field is checked only when set to a value. *)
Definition when_value {A} (check : A → option string) (f : option (option A))
  : option string :=
  match f with
  | Some (Some v) => check v
  | _ => None
  end.

Definition validate_TaskUpdate (today : Z) (body : TaskUpdate.t)
  : list ValidationError.t :=
  field_errors ["body"; "title"]
    (when_value (check_length 1 200) (TaskUpdate.title body)) ++
  field_errors ["body"; "priority"]
    (when_value check_priority (TaskUpdate.priority body)) ++
  field_errors ["body"; "due_date"]
    (when_value (due_date_not_in_past today) (TaskUpdate.due_date body)).

(** The query parameters of [GET /tasks]; [limit] and [offset] default to 10
    and 0. *)
Module ListQuery.
Record t := mk {
  completed : option bool;
  priority : option Z;
  tags : option string;
  limit : option Z;
  offset : option Z
}.
End ListQuery.

Definition validate_ListQuery (q : ListQuery.t) : list ValidationError.t :=
  field_errors ["query"; "priority"]
    (ListQuery.priority q ≫= check_priority) ++
  field_errors ["query"; "limit"]
    (ListQuery.limit q ≫=
       check_range 1 100 "Input should be greater than or equal to 1"
                         "Input should be less than or equal to 100") ++
  field_errors ["query"; "offset"]
    (ListQuery.offset q ≫=
       check_ge 0 "Input should be greater than or equal to 0").

(** [validation_exception_handler] ([app/main.py]): the [details] map of the
    422 response. *)
Definition error_field (e : ValidationError.t) : string :=
  Str.join "." (filter (λ l, l ≠ "body") (ValidationError.loc e)).

Definition validation_exception_handler (errors : list ValidationError.t)
  : gmap string string :=
  foldl (λ details e, <[error_field e := ValidationError.msg e]> details) ∅ errors.

(** ** The endpoints: validation, then the handler *)

Definition post_tasks (clock : Clock) (body : TaskCreate.t) (db : DB)
  : Result (DB * TaskResponse.t) :=
  match validate_TaskCreate (today clock) body with
  | [] => create_task clock body db
  | errors => ValidationFailed (validation_exception_handler errors)
  end.

Definition patch_task (clock : Clock) (task_id : Z) (body : TaskUpdate.t) (db : DB)
  : Result (DB * TaskResponse.t) :=
  match validate_TaskUpdate (today clock) body with
  | [] => update_task clock task_id body db
  | errors => ValidationFailed (validation_exception_handler errors)
  end.

Definition get_tasks (order_by : list Task.t → list Task.t) (q : ListQuery.t)
    (db : DB) : Result PaginatedTaskResponse.t :=
  match validate_ListQuery q with
  | [] =>
      Ok (list_tasks order_by (ListQuery.completed q) (ListQuery.priority q)
            (ListQuery.tags q) (default 10 (ListQuery.limit q))
            (default 0 (ListQuery.offset q)) db)
  | errors => ValidationFailed (validation_exception_handler errors)
  end.

(** ** The API as a transition system *)

Inductive Request :=
  | POST_tasks (body : TaskCreate.t)
  | GET_tasks (q : ListQuery.t)
  | GET_task (task_id : Z)
  | PATCH_task (task_id : Z) (body : TaskUpdate.t)
  | DELETE_task (task_id : Z).

(** The store after a request: the handler's on success, the old one
    otherwise (the transaction is rolled back); reads leave it alone. *)
Definition step (clock : Clock) (req : Request) (db : DB) : DB :=
  match req with
  | POST_tasks body =>
      match post_tasks clock body db with Ok (db', _) => db' | _ => db end
  | PATCH_task task_id body =>
      match patch_task clock task_id body db with Ok (db', _) => db' | _ => db end
  | DELETE_task task_id =>
      match delete_task clock task_id db with Ok db' => db' | _ => db end
  | GET_tasks _ | GET_task _ => db
  end.

(** A run of the service: each request with the clock it read. *)
Definition run (trace : list (Clock * Request)) (db : DB) : DB :=
  foldl (λ db cr, step cr.1 cr.2 db) db trace.

Definition reachable (db : DB) : Prop := ∃ trace, db = run trace empty_db.

(** ** Integrity of the store: what its keys and sequences guarantee *)

Record db_wf (db : DB) : Prop := mk_db_wf {
  wf_task_ids : NoDup (Task.id <$> db_tasks db);
  wf_task_fresh : ∀ x, x ∈ db_tasks db → Task.id x < next_task_id db;
  wf_tag_ids : NoDup (Tag.id <$> db_tags db);
  wf_tag_fresh : ∀ g, g ∈ db_tags db → Tag.id g < next_tag_id db;
  wf_tag_names : NoDup (Tag.name <$> db_tags db);
  wf_task_tags : ∀ x, x ∈ db_tasks db →
    NoDup (Tag.id <$> Task.tags x) ∧ Task.tags x ⊆ db_tags db
}.

(** Two orderings a store may apply: a merge sort of the rows as they are
    stored, and one of the rows scanned backwards.  Both sort by
    [created_at] descending; they differ on rows of equal [created_at]. *)
Definition order_forward (rows : list Task.t) : list Task.t :=
  merge_sort created_at_desc rows.

Definition order_backward (rows : list Task.t) : list Task.t :=
  merge_sort created_at_desc (reverse rows).

(** ** What the specification calls normalized names and a match *)

(** Trimmed, lowercased, and dropped when empty. *)
Definition normalize_names (names : list string) : list string :=
  filter (λ n, n ≠ "") ((λ n, Str.lower (Str.strip n)) <$> names).

(** The tag names a list request asks for, when the tag filter applies. *)
Definition requested_tags (tags : option string) : option (list string) :=
  match tags with
  | Some ((String _ _) as tags) =>
      match parse_tag_names tags with
      | [] => None
      | tag_names => Some tag_names
      end
  | _ => None
  end.

(** Not deleted, AND completed as asked, AND priority as asked, AND carrying
    ANY of the requested tags. *)
Definition matches (completed : option bool) (priority : option Z)
    (tags : option string) (x : Task.t) : Prop :=
  Task.is_deleted x = false ∧
  from_option (λ c, Task.completed x = c) True completed ∧
  from_option (λ p, Task.priority x = p) True priority ∧
  from_option (λ tag_names,
                 Exists (λ g, Tag.name g ∈ tag_names) (Task.tags x))
              True (requested_tags tags).

#[global] Instance matches_dec completed priority tags x :
  Decision (matches completed priority tags x).
Proof.
  unfold matches.
  destruct completed, priority, (requested_tags tags); simpl; apply _.
Defined.

(** ** Error responses ([app/main.py], the [HTTPException]s of [app/api/tasks.py]) *)

#[warnings="-register-all"]
Inductive Json :=
  | JNull
  | JStr (s : string)
  | JInt (n : Z)
  | JList (l : list Json)
  | JDict (items : gmap string Json).

Record HTTPException := mkHTTPException {
  status_code : Z;
  detail : Json
}.

(** [JSONResponse(status_code=..., content=...)] *)
Record JSONResponse := mkJSONResponse {
  response_status : Z;
  response_content : Json
}.

(** [http_exception_handler] *)
Definition http_exception_handler (exc : HTTPException) : JSONResponse :=
  match detail exc with
  | JDict items =>
      if decide (is_Some (items !! "error")) then
        mkJSONResponse (status_code exc) (detail exc)
      else
        mkJSONResponse (status_code exc)
          (JDict {[ "error" := JStr "Error"; "details" := JNull ]})
  | JStr s =>
      mkJSONResponse (status_code exc)
        (JDict {[ "error" := JStr s; "details" := JNull ]})
  | _ =>
      mkJSONResponse (status_code exc)
        (JDict {[ "error" := JStr "Error"; "details" := JNull ]})
  end.

(** [value_error_handler], given [str(exc)] *)
Definition value_error_handler (message : string) : JSONResponse :=
  mkJSONResponse 400
    (JDict {[ "error" := JStr "Bad Request";
              "details" := JDict {[ "message" := JStr message ]} ]}).

(** The response [validation_exception_handler] returns. *)
Definition validation_exception_response (errors : list ValidationError.t)
  : JSONResponse :=
  mkJSONResponse 422
    (JDict {[ "error" := JStr "Validation Failed";
              "details" := JDict (JStr <$> validation_exception_handler errors) ]}).

(** The exception [get_task], [update_task] and [delete_task] raise when the
    lookup finds nothing. *)
Definition not_found (task_id : Z) : HTTPException :=
  mkHTTPException 404
    (JDict {[ "error" := JStr "Not Found";
              "details" :=
                JDict {[ "task_id" :=
                           JStr ("Task with id " +:+ pretty task_id +:+ " not found") ]} ]}).

(** ** The lazily created engine and session factory ([app/core/database.py])

    [create_engine] and [sessionmaker] build objects; an engine is told
    apart by the order in which it was created. *)
Module Database.
Record Engine := mkEngine {
  url : string;
  serial : nat
}.

Record sessionmaker := mk_sessionmaker {
  autocommit : bool;
  autoflush : bool;
  bind : Engine
}.

(** The module globals, and how many engines [create_engine] has built. *)
Record Globals := mkGlobals {
  _engine : option Engine;
  _SessionLocal : option sessionmaker;
  engines_created : nat
}.

Definition initial : Globals := mkGlobals None None 0.

Definition get_engine (DATABASE_URL : string) (g : Globals) : Globals * Engine :=
  match _engine g with
  | None =>
      let e := mkEngine DATABASE_URL (engines_created g) in
      (mkGlobals (Some e) (_SessionLocal g) (S (engines_created g)), e)
  | Some e => (g, e)
  end.

Definition get_session_local (DATABASE_URL : string) (g : Globals)
  : Globals * sessionmaker :=
  match _SessionLocal g with
  | None =>
      let '(g1, e) := get_engine DATABASE_URL g in
      let s := mk_sessionmaker false false e in
      (mkGlobals (_engine g1) (Some s) (engines_created g1), s)
  | Some s => (g, s)
  end.

(** A call of either accessor, and a run of calls. *)
Inductive Call := GetEngine | GetSessionLocal.

Definition call (DATABASE_URL : string) (c : Call) (g : Globals) : Globals :=
  match c with
  | GetEngine => (get_engine DATABASE_URL g).1
  | GetSessionLocal => (get_session_local DATABASE_URL g).1
  end.

Definition calls (DATABASE_URL : string) (cs : list Call) (g : Globals) : Globals :=
  foldl (λ g c, call DATABASE_URL c g) g cs.
End Database.

(** * Properties *)

(** ** Sanity checks of the string operations *)

Example strip_lower_ex :
  Str.lower (Str.strip " urGent  ") = "urgent" ∧
  Str.split "," "a,,b" = ["a"; ""; "b"] ∧ Str.split "," "" = [""].
Proof. vm_compute. done. Qed.

(** ** Validation *)

Section validation.

Lemma validation_details_acc (errors : list ValidationError.t)
    (acc : gmap string string) (k : string) :
  is_Some (acc !! k) ∨ (∃ e, e ∈ errors ∧ error_field e = k) →
  is_Some (foldl (λ details e, <[error_field e := ValidationError.msg e]> details)
             acc errors !! k).
Proof.
  revert acc. induction errors as [|e errors IH]; intros acc [Hacc|(e' & He' & Hk)]; simpl.
  - done.
  - by apply elem_of_nil in He'.
  - apply IH. left. destruct (decide (error_field e = k)) as [->|Hne].
    + rewrite lookup_insert_eq. eauto.
    + by rewrite lookup_insert_ne.
  - apply elem_of_cons in He' as [->|He'].
    + apply IH. left. rewrite Hk, lookup_insert_eq. eauto.
    + apply IH. right. eauto.
Qed.

Lemma validation_details_field (errors : list ValidationError.t) e :
  e ∈ errors →
  is_Some (validation_exception_handler errors !! error_field e).
Proof. intros He. apply validation_details_acc. right. eauto. Qed.

Lemma post_tasks_invalid clock body db e :
  e ∈ validate_TaskCreate (today clock) body →
  post_tasks clock body db =
    ValidationFailed (validation_exception_handler
                        (validate_TaskCreate (today clock) body)).
Proof.
  unfold post_tasks. destruct (validate_TaskCreate _ _); [|done].
  intros He. by apply elem_of_nil in He.
Qed.

Lemma post_tasks_rejects clock body db loc msg :
  ValidationError.mk loc msg ∈ validate_TaskCreate (today clock) body →
  ∃ details, post_tasks clock body db = ValidationFailed details ∧
             is_Some (details !! Str.join "." (filter (λ l, l ≠ "body") loc)).
Proof.
  intros He. eexists. split; [by eapply post_tasks_invalid|].
  by apply (validation_details_field _ _ He).
Qed.

Lemma create_task_no_tags clock body db :
  TaskCreate.tags body = None →
  ∃ db' r, create_task clock body db = Ok (db', r).
Proof. intros Htags. unfold create_task. rewrite Htags. simpl. eauto. Qed.

End validation.

(** C8. Create-request validation: priority 0 and priority 6 are validation
    failures whose details map names [priority]; a title of 201 characters
    is rejected; a due date of yesterday is rejected; a due date of today
    passes validation (the comparison is against the date the server reads
    when the request is handled). *)
Theorem create_validation_boundaries (clock : Clock) (body : TaskCreate.t) (db : DB) :
  (TaskCreate.priority body = 0 ∨ TaskCreate.priority body = 6 →
     ∃ details, post_tasks clock body db = ValidationFailed details ∧
                is_Some (details !! "priority")) ∧
  (String.length (TaskCreate.title body) = 201%nat →
     ∃ details, post_tasks clock body db = ValidationFailed details ∧
                is_Some (details !! "title")) ∧
  (TaskCreate.due_date body = today clock - 1 →
     ∃ details, post_tasks clock body db = ValidationFailed details ∧
                is_Some (details !! "due_date")) ∧
  (TaskCreate.due_date body = today clock →
     due_date_not_in_past (today clock) (TaskCreate.due_date body) = None ∧
     ((1 ≤ String.length (TaskCreate.title body) ≤ 200)%nat →
      1 ≤ TaskCreate.priority body ≤ 5 →
      post_tasks clock body db = create_task clock body db ∧
      (TaskCreate.tags body = None →
         ∃ db' r, post_tasks clock body db = Ok (db', r)))).
Proof.
  split_and!.
  - intros Hp.
    assert (∃ msg, check_priority (TaskCreate.priority body) = Some msg) as [msg Hmsg].
    { unfold check_priority, check_range. destruct Hp as [Hp|Hp]; rewrite Hp; simpl; eauto. }
    apply (post_tasks_rejects clock body db ["body"; "priority"] msg).
    unfold validate_TaskCreate. rewrite Hmsg. simpl. set_solver.
  - intros Hlen.
    apply (post_tasks_rejects clock body db ["body"; "title"]
             "String should have at most 200 characters").
    unfold validate_TaskCreate, check_length. rewrite Hlen. simpl. set_solver.
  - intros Hd.
    apply (post_tasks_rejects clock body db ["body"; "due_date"]
             "Value error, due_date cannot be in the past").
    unfold validate_TaskCreate, due_date_not_in_past. rewrite Hd.
    rewrite decide_True by lia. simpl. set_solver.
  - intros Hd.
    assert (due_date_not_in_past (today clock) (TaskCreate.due_date body) = None) as Hdue.
    { unfold due_date_not_in_past. rewrite Hd. by rewrite decide_False by lia. }
    split; [done|]. intros Ht Hp.
    assert (post_tasks clock body db = create_task clock body db) as Heq.
    { unfold post_tasks, validate_TaskCreate. rewrite Hdue.
      unfold check_length, check_priority, check_range.
      rewrite !decide_False by lia. done. }
    split; [done|]. intros Htags. rewrite Heq. by apply create_task_no_tags.
Qed.

Lemma create_validation_boundaries_witness :
  let clock := mkClock 20000 0 in
  let body p t d := TaskCreate.mk t None p d None in
  let long := String.concat "" (replicate 201 "x") in
  (∃ details, post_tasks clock (body 0 "A" 20001) empty_db = ValidationFailed details ∧
              is_Some (details !! "priority")) ∧
  (∃ details, post_tasks clock (body 6 "A" 20001) empty_db = ValidationFailed details ∧
              is_Some (details !! "priority")) ∧
  (∃ details, post_tasks clock (body 3 long 20001) empty_db = ValidationFailed details ∧
              is_Some (details !! "title")) ∧
  (∃ details, post_tasks clock (body 3 "A" 19999) empty_db = ValidationFailed details ∧
              is_Some (details !! "due_date")) ∧
  (∃ db' r, post_tasks clock (body 3 "A" 20000) empty_db = Ok (db', r)).
Proof.
  intros clock body long. split_and!.
  - apply (create_validation_boundaries clock (body 0 "A" 20001) empty_db). by left.
  - apply (create_validation_boundaries clock (body 6 "A" 20001) empty_db). by right.
  - apply (create_validation_boundaries clock (body 3 long 20001) empty_db).
    vm_compute. reflexivity.
  - apply (create_validation_boundaries clock (body 3 "A" 19999) empty_db).
    reflexivity.
  - apply (create_validation_boundaries clock (body 3 "A" 20000) empty_db);
      [reflexivity | simpl; lia | simpl; lia | reflexivity].
Defined.

(** ** Lookups and row replacement *)

Lemma find_task_Some task_id db x :
  find_task task_id db = Some x →
  x ∈ db_tasks db ∧ Task.id x = task_id ∧ Task.is_deleted x = false.
Proof.
  unfold find_task. intros Hx. apply head_Some_elem_of in Hx.
  apply list_elem_of_filter in Hx. naive_solver.
Qed.

Lemma find_task_None task_id db :
  (∀ x, x ∈ db_tasks db → Task.id x = task_id → Task.is_deleted x = true) →
  find_task task_id db = None.
Proof.
  unfold find_task. intros Hall. apply head_None.
  induction (db_tasks db) as [|x l IH]; [done|].
  rewrite filter_cons_False.
  - apply IH. intros y Hy. apply Hall. by right.
  - intros [Hid Hdel]. specialize (Hall x (list_elem_of_here _ _) Hid). congruence.
Qed.

Lemma get_task_NotFound task_id db :
  find_task task_id db = None → get_task task_id db = NotFound task_id.
Proof. unfold get_task. by intros ->. Qed.

Lemma elem_of_replace_task row db x :
  x ∈ db_tasks (replace_task row db) →
  x = row ∨ (x ∈ db_tasks db ∧ Task.id x ≠ Task.id row).
Proof.
  simpl. intros Hx. apply list_elem_of_fmap in Hx as (y & -> & Hy).
  case_decide; [by left|by right].
Qed.

Lemma replace_task_keeps row db x :
  x ∈ db_tasks db → Task.id x ≠ Task.id row → x ∈ db_tasks (replace_task row db).
Proof.
  intros Hx Hne. simpl. apply list_elem_of_fmap. exists x.
  by rewrite decide_False.
Qed.

Lemma replace_task_ids row db :
  Task.id <$> db_tasks (replace_task row db) = Task.id <$> db_tasks db.
Proof.
  simpl. rewrite <- list_fmap_compose. apply list_fmap_ext.
  intros i x _. simpl. by case_decide.
Qed.

(** A replaced row that is still live is the one a lookup by its id finds. *)
Lemma find_task_replace row db old :
  find_task (Task.id row) db = Some old → Task.is_deleted row = false →
  find_task (Task.id row) (replace_task row db) = Some row.
Proof.
  unfold find_task. simpl. intros Hold Hlive.
  induction (db_tasks db) as [|x l IH]; [done|].
  rewrite fmap_cons. destruct (decide (Task.id x = Task.id row)) as [Hid|Hid].
  - by rewrite filter_cons_True.
  - rewrite filter_cons_False in Hold by naive_solver.
    rewrite filter_cons_False by naive_solver. by apply IH.
Qed.

(** ** The loop of [update_task], field by field *)

Lemma set_fields_spec db a body :
  foldl set_field (db, a) (model_dump_exclude_unset body) =
  let '(db1, tags) :=
    match TaskUpdate.tags body with
    | Some (Some names) =>
        let '(db1, tags) := get_or_create_tags db names in (db1, Some tags)
    | _ => (db, Attrs.tags a)
    end in
  (db1, Attrs.mk (default (Attrs.title a) (TaskUpdate.title body))
                 (default (Attrs.description a) (TaskUpdate.description body))
                 (default (Attrs.priority a) (TaskUpdate.priority body))
                 (default (Attrs.due_date a) (TaskUpdate.due_date body))
                 (default (Attrs.completed a) (TaskUpdate.completed body))
                 tags).
Proof.
  destruct a, body as [ti de pr du co tg]. unfold model_dump_exclude_unset.
  destruct ti, de, pr, du, co, tg as [[names|]|]; simpl;
    try destruct (get_or_create_tags db names); done.
Qed.

(** C10. A partial-update body that sets [title] to null raises no
    validation error for [title]; the handler's loop then assigns null to
    the instance's title; the request ends in the store refusing the commit
    (the column is not nullable), never in a validation failure on
    [title]. *)
Theorem update_title_null_not_validated (clock : Clock) (task_id : Z)
    (body : TaskUpdate.t) (db : DB) (task : Task.t) :
  find_task task_id db = Some task →
  TaskUpdate.title body = Some None →
  (∀ e, e ∈ validate_TaskUpdate (today clock) body →
        ValidationError.loc e ≠ ["body"; "title"]) ∧
  Attrs.title (foldl set_field (db, Attrs.of_task task)
                 (model_dump_exclude_unset body)).2 = None ∧
  update_task clock task_id body db = IntegrityError ∧
  (validate_TaskUpdate (today clock) body = [] →
   patch_task clock task_id body db = IntegrityError).
Proof.
  intros Hfind Htitle.
  assert (Attrs.title (foldl set_field (db, Attrs.of_task task)
            (model_dump_exclude_unset body)).2 = None) as Hloop.
  { rewrite set_fields_spec. rewrite Htitle.
    destruct (TaskUpdate.tags body) as [[names|]|]; simpl; [|done..].
    by destruct (get_or_create_tags db names). }
  assert (update_task clock task_id body db = IntegrityError) as Hupd.
  { unfold update_task. rewrite Hfind.
    destruct (foldl set_field _ _) as [db1 a]. simpl in Hloop.
    unfold flush_task. by rewrite Hloop. }
  split_and!; [|done|done|].
  - unfold validate_TaskUpdate. rewrite Htitle. simpl. intros e He.
    apply elem_of_app in He as [He|He].
    + destruct (when_value _ _); simpl in He; [|by apply elem_of_nil in He].
      apply list_elem_of_singleton in He as ->. done.
    + destruct (when_value _ _); simpl in He; [|by apply elem_of_nil in He].
      apply list_elem_of_singleton in He as ->. done.
  - intros Hvalid. unfold patch_task. by rewrite Hvalid.
Qed.

Lemma update_title_null_not_validated_witness :
  let clock := mkClock 20000 7 in
  let db := step (mkClock 20000 1)
              (POST_tasks (TaskCreate.mk "A" (Some "B") 3 20001 None)) empty_db in
  let body := TaskUpdate.mk (Some None) None None None None None in
  is_Some (find_task 1 db) ∧
  validate_TaskUpdate (today clock) body = [] ∧
  patch_task clock 1 body db = IntegrityError.
Proof.
  intros clock db body. split; [by eexists|]. split; [reflexivity|].
  eapply (update_title_null_not_validated clock 1 body db); reflexivity.
Defined.

(** ** Filtering the rows of the list query by a predicate on the columns *)

Lemma filter_comm {A} (P1 P2 : A → Prop)
    `{!∀ x, Decision (P1 x), !∀ x, Decision (P2 x)} (l : list A) :
  filter P1 (filter P2 l) = filter P2 (filter P1 l).
Proof.
  induction l as [|x l IH]; [done|].
  destruct (decide (P1 x)) as [Hp1|Hp1], (decide (P2 x)) as [Hp2|Hp2];
    repeat (first [rewrite (filter_cons_True _ x) by done
                  |rewrite (filter_cons_False _ x) by done]);
    by rewrite ?IH.
Qed.

Section query_filter.
Context (Q : Task.t → Prop) `{!∀ x, Decision (Q x)}.
Hypothesis Q_columns : ∀ x y, Task.columns x = Task.columns y → Q x → Q y.

Lemma join_tags_filter l :
  join_tags (filter Q l) = filter (λ r, Q r.1) (join_tags l).
Proof.
  unfold join_tags. induction l as [|x l IH]; [done|].
  rewrite bind_cons, filter_app, <- IH.
  destruct (decide (Q x)) as [HQ|HQ].
  - rewrite filter_cons_True by done. rewrite bind_cons. f_equal.
    induction (Task.tags x) as [|g gs IHg]; [done|].
    rewrite fmap_cons, filter_cons_True by done. by rewrite <- IHg.
  - rewrite filter_cons_False by done.
    replace (filter (λ r : Task.t * Tag.t, Q r.1) ((λ g, (x, g)) <$> Task.tags x))
      with (@nil (Task.t * Tag.t)); [done|].
    induction (Task.tags x) as [|g gs IHg]; [done|].
    rewrite fmap_cons, filter_cons_False by done. done.
Qed.

Lemma fmap_fst_filter (j : list (Task.t * Tag.t)) :
  fst <$> filter (λ r, Q r.1) j = filter Q (fst <$> j).
Proof.
  induction j as [|[x g] j IH]; [done|]. rewrite fmap_cons. simpl.
  destruct (decide (Q x)) as [HQ|HQ].
  - rewrite !filter_cons_True by done. by rewrite fmap_cons, IH.
  - rewrite !filter_cons_False by done. done.
Qed.

Lemma distinct_filter l : distinct (filter Q l) = filter Q (distinct l).
Proof.
  induction l as [|x l IH]; [done|]. simpl distinct at 2.
  destruct (decide (Q x)) as [HQ|HQ].
  - rewrite filter_cons_True by done. simpl.
    assert (Task.columns x ∈ Task.columns <$> filter Q l ↔
            Task.columns x ∈ Task.columns <$> l) as Hiff.
    { rewrite !list_elem_of_fmap. split.
      - intros (y & Hy & Hin). apply list_elem_of_filter in Hin as [_ Hin]. eauto.
      - intros (y & Hy & Hin). exists y. split; [done|].
        apply list_elem_of_filter. split; [by eapply Q_columns|done]. }
    destruct (decide (Task.columns x ∈ Task.columns <$> filter Q l)),
             (decide (Task.columns x ∈ Task.columns <$> l));
      [done | tauto | tauto |].
    rewrite filter_cons_True by done. by rewrite IH.
  - rewrite filter_cons_False by done.
    destruct (decide (Task.columns x ∈ Task.columns <$> l)); [done|].
    by rewrite filter_cons_False.
Qed.

Lemma list_query_filter completed priority tags db db' :
  filter (λ x, Task.is_deleted x = false) (db_tasks db') =
    filter Q (filter (λ x, Task.is_deleted x = false) (db_tasks db)) →
  list_query completed priority tags db' =
    filter Q (list_query completed priority tags db).
Proof.
  intros Hlive. unfold list_query. rewrite Hlive.
  set (l0 := filter (λ x, Task.is_deleted x = false) (db_tasks db)).
  set (l1 := match completed with
             | Some c => filter (λ x, Task.completed x = c) l0
             | None => l0
             end).
  assert (match completed with
          | Some c => filter (λ x, Task.completed x = c) (filter Q l0)
          | None => filter Q l0
          end = filter Q l1) as ->.
  { subst l1. destruct completed; [apply filter_comm|done]. }
  set (l2 := match priority with
             | Some p => filter (λ x, Task.priority x = p) l1
             | None => l1
             end).
  assert (match priority with
          | Some p => filter (λ x, Task.priority x = p) (filter Q l1)
          | None => filter Q l1
          end = filter Q l2) as ->.
  { subst l2. destruct priority; [apply filter_comm|done]. }
  destruct tags as [[|c s]|]; [done| |done].
  destruct (parse_tag_names (String c s)) as [|n ns]; [done|].
  rewrite join_tags_filter.
  rewrite (filter_comm (λ r : Task.t * Tag.t, Tag.name r.2 ∈ n :: ns)).
  by rewrite fmap_fst_filter, distinct_filter.
Qed.

End query_filter.

(** ** Soft delete *)

Lemma live_rows_after_delete (row : Task.t) (db : DB) :
  Task.is_deleted row = true →
  filter (λ x, Task.is_deleted x = false) (db_tasks (replace_task row db)) =
  filter (λ x, Task.id x ≠ Task.id row)
    (filter (λ x, Task.is_deleted x = false) (db_tasks db)).
Proof.
  intros Hdel. unfold replace_task. simpl db_tasks.
  induction (db_tasks db) as [|x l IH]; [done|]. rewrite fmap_cons.
  destruct (decide (Task.id x = Task.id row)) as [Hid|Hid].
  - rewrite (filter_cons_False _ row) by congruence. rewrite IH.
    destruct (decide (Task.is_deleted x = false)).
    + rewrite (filter_cons_True _ x) by done.
      by rewrite filter_cons_False by naive_solver.
    + by rewrite (filter_cons_False _ x) by done.
  - destruct (decide (Task.is_deleted x = false)).
    + rewrite !(filter_cons_True _ x) by done. by rewrite IH.
    + rewrite !(filter_cons_False _ x) by done. by rewrite IH.
Qed.

Lemma elem_of_page {A} (l : list A) (n m : nat) x :
  x ∈ take n (drop m l) → x ∈ l.
Proof.
  intros Hx. apply (subseteq_drop m l). by eapply subseteq_take.
Qed.

(** C4. After a successful soft delete of a task: a GET on its id is
    not-found; a second DELETE on its id is not-found; every list query
    returns exactly its former rows without that task, so the task is in no
    page and the total no longer counts it. *)
Theorem soft_delete_terminal (clock : Clock) (task_id : Z) (db db' : DB) :
  delete_task clock task_id db = Ok db' →
  get_task task_id db' = NotFound task_id ∧
  (∀ clock', delete_task clock' task_id db' = NotFound task_id) ∧
  (∀ completed priority tags,
     list_query completed priority tags db' =
       filter (λ x, Task.id x ≠ task_id) (list_query completed priority tags db)) ∧
  (∀ order_by completed priority tags limit offset,
     orders_by_created_at_desc order_by →
     let r := list_tasks order_by completed priority tags limit offset db' in
     (∀ t, t ∈ PaginatedTaskResponse.tasks r → TaskResponse.id t ≠ task_id) ∧
     PaginatedTaskResponse.total r =
       Z.of_nat (length (filter (λ x, Task.id x ≠ task_id)
                           (list_query completed priority tags db)))).
Proof.
  unfold delete_task. intros Hdel.
  destruct (find_task task_id db) as [task|] eqn:Hfind; [|done].
  apply find_task_Some in Hfind as (Hin & Hid & Hlive).
  injection Hdel as <-.
  set (task' := Task.mk _ _ _ _ _ _ true _ _ _).
  assert (Task.id task' = task_id) as Hid' by done.
  assert (find_task task_id (replace_task task' db) = None) as Hnone.
  { apply find_task_None. intros x Hx Hxid.
    apply elem_of_replace_task in Hx as [->|[_ Hne]]; [done|congruence]. }
  assert (∀ completed priority tags,
     list_query completed priority tags (replace_task task' db) =
       filter (λ x, Task.id x ≠ task_id) (list_query completed priority tags db))
    as Hquery.
  { intros. apply list_query_filter.
    - intros x y Hxy Hx. unfold Task.columns in Hxy. congruence.
    - rewrite <- Hid'. by apply live_rows_after_delete. }
  split_and!.
  - by apply get_task_NotFound.
  - intros clock'. unfold delete_task. by rewrite Hnone.
  - done.
  - intros order_by completed priority tags limit offset Horder.
    unfold list_tasks. simpl. rewrite Hquery. split; [|done].
    intros t Ht. apply list_elem_of_fmap in Ht as (x & -> & Hx).
    apply elem_of_page in Hx. rewrite (proj1 (Horder _)) in Hx.
    apply list_elem_of_filter in Hx. simpl. tauto.
Qed.

Lemma soft_delete_terminal_witness :
  let clock := mkClock 20000 9 in
  let db := step (mkClock 20000 1)
              (POST_tasks (TaskCreate.mk "A" None 3 20001 (Some ["work"]))) empty_db in
  ∃ db', delete_task clock 1 db = Ok db' ∧
         get_task 1 db' = NotFound 1 ∧
         delete_task clock 1 db' = NotFound 1 ∧
         list_query None None (Some "work") db' = [].
Proof.
  intros clock db. eexists. split; [reflexivity|].
  pose proof (soft_delete_terminal clock 1 db _ eq_refl) as (Hget & Hdel & Hq & _).
  split; [exact Hget|]. split; [exact (Hdel clock)|].
  rewrite Hq. reflexivity.
Defined.

(** ** The store's orderings meet the contract *)

#[global] Instance created_at_desc_total : Total created_at_desc.
Proof. intros a b. unfold created_at_desc. lia. Qed.

#[global] Instance created_at_desc_trans : Transitive created_at_desc.
Proof. intros a b c. unfold created_at_desc. lia. Qed.

Lemma order_forward_ok : orders_by_created_at_desc order_forward.
Proof.
  intros rows. split.
  - apply merge_sort_Permutation.
  - apply Sorted_merge_sort. apply _.
Qed.

Lemma order_backward_ok : orders_by_created_at_desc order_backward.
Proof.
  intros rows. unfold order_backward. split.
  - rewrite merge_sort_Permutation. apply reverse_Permutation.
  - apply Sorted_merge_sort. apply _.
Qed.

(** ** Keys *)

Lemma NoDup_fmap_eq {A B} (f : A → B) (l : list A) x y :
  NoDup (f <$> l) → x ∈ l → y ∈ l → f x = f y → x = y.
Proof.
  induction l as [|a l IH]; intros Hnd Hx Hy Hf.
  - by apply elem_of_nil in Hx.
  - rewrite fmap_cons in Hnd. apply NoDup_cons in Hnd as [Ha Hnd].
    apply elem_of_cons in Hx as [->|Hx], Hy as [->|Hy]; [done| | |by apply IH].
    + exfalso. apply Ha. rewrite Hf. by apply list_elem_of_fmap_2.
    + exfalso. apply Ha. rewrite <- Hf. by apply list_elem_of_fmap_2.
Qed.

Lemma find_tag_Some name db g :
  find_tag name db = Some g → g ∈ db_tags db ∧ Tag.name g = name.
Proof.
  unfold find_tag. intros Hg. apply head_Some_elem_of in Hg.
  apply list_elem_of_filter in Hg. tauto.
Qed.

Lemma find_tag_None name db :
  find_tag name db = None → name ∉ Tag.name <$> db_tags db.
Proof.
  unfold find_tag. intros Hg Hin. apply head_None in Hg.
  apply list_elem_of_fmap in Hin as (g & -> & Hin).
  by apply (filter_nil_not_elem_of _ _ g Hg).
Qed.

(** ** The tag resolver: what it returns and what it does to the store *)

Lemma get_or_create_tags_spec (tag_names : list string) :
  ∀ db db1 tags, get_or_create_tags db tag_names = (db1, tags) →
  db_tasks db1 = db_tasks db ∧ next_task_id db1 = next_task_id db ∧
  Tag.name <$> tags = normalize_names tag_names ∧
  db_tags db ⊆ db_tags db1 ∧
  tags ⊆ db_tags db1 ∧
  (NoDup (Tag.id <$> db_tags db) →
   (∀ g, g ∈ db_tags db → Tag.id g < next_tag_id db) →
   NoDup (Tag.name <$> db_tags db) →
   NoDup (Tag.id <$> db_tags db1) ∧
   (∀ g, g ∈ db_tags db1 → Tag.id g < next_tag_id db1) ∧
   NoDup (Tag.name <$> db_tags db1)).
Proof.
  induction tag_names as [|name rest IH]; intros db db1 tags Hrun; simpl in Hrun.
  - injection Hrun as <- <-. split_and!; try done. apply list_subseteq_nil.
  - unfold normalize_names. rewrite fmap_cons.
    destruct (decide (Str.lower (Str.strip name) = "")) as [Hempty|Hname].
    + rewrite filter_cons_False by tauto. by apply IH.
    + rewrite filter_cons_True by done.
      destruct (find_tag _ db) as [g|] eqn:Hfind.
      * destruct (get_or_create_tags db rest) as [db2 tags2] eqn:Hrest.
        injection Hrun as <- <-.
        apply find_tag_Some in Hfind as [Hg Hgname].
        apply IH in Hrest as (Ht & Hn & Hnames & Hsub & Htags & Hwf).
        split_and!; try done.
        -- rewrite fmap_cons. by rewrite Hgname, Hnames.
        -- intros g' Hg'. apply elem_of_cons in Hg' as [->|Hg']; auto.
      * unfold add_tag in Hrun.
        destruct (get_or_create_tags _ rest) as [db2 tags2] eqn:Hrest.
        injection Hrun as <- <-.
        apply find_tag_None in Hfind.
        apply IH in Hrest as (Ht & Hn & Hnames & Hsub & Htags & Hwf).
        simpl in Ht, Hn, Hsub, Hwf. split_and!; try done.
        -- rewrite fmap_cons. by rewrite Hnames.
        -- intros g' Hg'. apply Hsub. apply elem_of_app. by left.
        -- intros g' Hg'. apply elem_of_cons in Hg' as [->|Hg']; auto.
           apply Hsub. apply elem_of_app. right. by apply list_elem_of_singleton.
        -- intros Hids Hfresh Hnd. apply Hwf.
           ++ rewrite fmap_app. apply NoDup_app. split_and!; [done| |apply NoDup_singleton].
              intros i Hi Hi'. apply list_elem_of_singleton in Hi'. subst i.
              apply list_elem_of_fmap in Hi as (g' & Heq & Hg').
              apply Hfresh in Hg'. simpl in *. lia.
           ++ intros g' Hg'. apply elem_of_app in Hg' as [Hg'|Hg'].
              ** apply Hfresh in Hg'. lia.
              ** apply list_elem_of_singleton in Hg' as ->. simpl. lia.
           ++ rewrite fmap_app. apply NoDup_app. split_and!; [done| |apply NoDup_singleton].
              intros n Hn' Hn''. apply list_elem_of_singleton in Hn''. by subst n.
Qed.

(** ** The unit of work on the tag collection *)

Lemma flush_tags_Permutation clock new :
  flush_tags clock new ≡ₚ remove_dups new.
Proof. apply merge_sort_Permutation. Qed.

Lemma rank_in_lookup l i g :
  NoDup l → l !! i = Some g → rank_in l g = Z.of_nat i.
Proof.
  intros Hnd Hi. unfold rank_in.
  destruct (list_find_elem_of (λ y, y = g) l g) as [[j y] Hj];
    [by eapply list_elem_of_lookup_2|done|].
  rewrite Hj. apply list_find_Some in Hj as (Hlj & -> & _).
  f_equal. eapply NoDup_lookup; eauto.
Qed.

Lemma StronglySorted_by_lookup {A} (R : relation A) (l : list A) :
  (∀ i j x y, l !! i = Some x → l !! j = Some y → (i < j)%nat → R x y) →
  StronglySorted R l.
Proof.
  induction l as [|a l IH]; intros Hl; constructor.
  - apply IH. intros i j x y Hi Hj Hij. apply (Hl (S i) (S j)); [done..|lia].
  - apply Forall_forall. intros y Hy.
    apply list_elem_of_lookup in Hy as [j Hj].
    apply (Hl 0%nat (S j)); [done..|lia].
Qed.

Lemma placed_before_total clock : Total (placed_before clock).
Proof. intros a b. unfold placed_before. lia. Qed.

Lemma placed_before_trans clock : Transitive (placed_before clock).
Proof. intros a b c. unfold placed_before. lia. Qed.

(** The model leaves the order of a collection free: whatever order [l] of
    the distinct tags of [new] the store hands back, some clock of the model
    gives it. *)
Lemma flush_tags_any_order today now now2 new l :
  l ≡ₚ remove_dups new →
  flush_tags (Build_Clock today now now2 (rank_in l)) new = l.
Proof.
  intros Hperm.
  assert (NoDup l) as Hnd by (rewrite Hperm; apply NoDup_remove_dups).
  set (clock := Build_Clock today now now2 (rank_in l)).
  unfold flush_tags.
  apply (StronglySorted_unique_strong (placed_before clock)).
  - intros x y Hx Hy Hxy Hyx. rewrite merge_sort_Permutation, <- Hperm in Hx.
    apply list_elem_of_lookup in Hx as [i Hi].
    apply list_elem_of_lookup in Hy as [j Hj].
    unfold placed_before in Hxy, Hyx. simpl in Hxy, Hyx.
    rewrite (rank_in_lookup l i x), (rank_in_lookup l j y) in * by done.
    assert (i = j) as -> by lia. congruence.
  - apply StronglySorted_merge_sort;
      [apply placed_before_trans|apply placed_before_total].
  - apply StronglySorted_by_lookup. intros i j x y Hi Hj Hij.
    unfold placed_before. simpl.
    rewrite (rank_in_lookup l i x), (rank_in_lookup l j y) by done. lia.
  - rewrite merge_sort_Permutation. by symmetry.
Qed.

Lemma elem_of_flush_tags clock new g : g ∈ flush_tags clock new ↔ g ∈ new.
Proof.
  unfold flush_tags. rewrite merge_sort_Permutation. apply elem_of_remove_dups.
Qed.

Lemma NoDup_flush_tags clock new : NoDup (flush_tags clock new).
Proof.
  unfold flush_tags. rewrite merge_sort_Permutation. apply NoDup_remove_dups.
Qed.

Lemma flush_tags_spec clock new (tbl : list Tag.t) :
  NoDup (Tag.id <$> tbl) → new ⊆ tbl →
  NoDup (Tag.id <$> flush_tags clock new) ∧
  flush_tags clock new ⊆ new ∧
  (∀ i, i ∈ Tag.id <$> flush_tags clock new ↔ i ∈ Tag.id <$> new).
Proof.
  intros Hids Hsub. split_and!.
  - apply NoDup_fmap_2_strong; [|apply NoDup_flush_tags].
    intros g g' Hg%elem_of_flush_tags Hg'%elem_of_flush_tags Heq.
    eapply NoDup_fmap_eq; [exact Hids|auto..].
  - intros g. by rewrite elem_of_flush_tags.
  - intros i. rewrite !list_elem_of_fmap.
    by setoid_rewrite elem_of_flush_tags.
Qed.

(** ** What a successful update did *)

Lemma update_task_Ok clock task_id body db db' r :
  update_task clock task_id body db = Ok (db', r) →
  ∃ task db1 task',
    find_task task_id db = Some task ∧
    db' = replace_task task' db1 ∧
    r = TaskResponse.from_orm_with_tags task' ∧
    db_tasks db1 = db_tasks db ∧ next_task_id db1 = next_task_id db ∧
    Task.id task' = Task.id task ∧
    Task.is_deleted task' = Task.is_deleted task ∧
    Task.created_at task' = Task.created_at task ∧
    Some (Task.title task') = default (Some (Task.title task)) (TaskUpdate.title body) ∧
    Task.description task' =
      default (Task.description task) (TaskUpdate.description body) ∧
    Some (Task.priority task') =
      default (Some (Task.priority task)) (TaskUpdate.priority body) ∧
    Some (Task.due_date task') =
      default (Some (Task.due_date task)) (TaskUpdate.due_date body) ∧
    Some (Task.completed task') =
      default (Some (Task.completed task)) (TaskUpdate.completed body) ∧
    match TaskUpdate.tags body with
    | Some (Some names) =>
        ∃ new, get_or_create_tags db names = (db1, new) ∧
               Task.tags task' = flush_tags clock new
    | _ => db1 = db ∧ Task.tags task' = Task.tags task
    end.
Proof.
  unfold update_task. intros Hupd.
  destruct (find_task task_id db) as [task|] eqn:Hfind; [|done].
  rewrite set_fields_spec in Hupd.
  assert (∃ db1 tags,
    match TaskUpdate.tags body with
    | Some (Some names) =>
        let '(db1, tags) := get_or_create_tags db names in (db1, Some tags)
    | _ => (db, Attrs.tags (Attrs.of_task task))
    end = (db1, tags) ∧
    match TaskUpdate.tags body with
    | Some (Some names) =>
        ∃ new, get_or_create_tags db names = (db1, new) ∧ tags = Some new
    | _ => db1 = db ∧ tags = None
    end ∧ db_tasks db1 = db_tasks db ∧ next_task_id db1 = next_task_id db)
    as (db1 & tags & Heq & Htags & Ht & Hn).
  { destruct (TaskUpdate.tags body) as [[names|]|]; [|by eexists _, _..].
    destruct (get_or_create_tags db names) as [db1 new] eqn:Hrun.
    exists db1, (Some new). apply get_or_create_tags_spec in Hrun as (? & ? & _).
    split_and!; eauto. }
  rewrite Heq in Hupd. clear Heq. simpl in Hupd.
  destruct (flush_task _ _ _) as [task'|] eqn:Hflush; [|done].
  injection Hupd as <- <-. exists task, db1, task'.
  unfold flush_task in Hflush. simpl in Hflush.
  destruct (default (Some (Task.title task)) (TaskUpdate.title body))
    as [title|]; [|done].
  destruct (default (Some (Task.priority task)) (TaskUpdate.priority body))
    as [priority|]; [|done].
  destruct (default (Some (Task.due_date task)) (TaskUpdate.due_date body))
    as [due_date|]; [|done].
  destruct (default (Some (Task.completed task)) (TaskUpdate.completed body))
    as [completed|]; [|done].
  simpl in Hflush. injection Hflush as <-. simpl.
  split_and!; try done.
  destruct (TaskUpdate.tags body) as [[names|]|].
  - destruct Htags as (new & Hrun & ->). eauto.
  - by destruct Htags as [-> ->].
  - by destruct Htags as [-> ->].
Qed.

(** ** What a successful create did *)

Lemma create_task_Ok clock body db db' r :
  create_task clock body db = Ok (db', r) →
  ∃ db1 tags,
    get_or_create_tags db (default [] (TaskCreate.tags body)) = (db1, tags) ∧
    NoDup (flush_tags clock tags) ∧
    let task :=
      Task.mk (next_task_id db1)
              (TaskCreate.title body) (TaskCreate.description body)
              (TaskCreate.priority body) (TaskCreate.due_date body)
              false false (utc_now clock) (utc_now_2 clock)
              (flush_tags clock tags) in
    db' = insert_task task db1 ∧ r = TaskResponse.from_orm_with_tags task.
Proof.
  unfold create_task. intros Hcreate.
  assert (match TaskCreate.tags body with
          | Some ((_ :: _) as names) => get_or_create_tags db names
          | _ => (db, [])
          end = get_or_create_tags db (default [] (TaskCreate.tags body))) as Hrun.
  { by destruct (TaskCreate.tags body) as [[|n ns]|]. }
  rewrite Hrun in Hcreate.
  destruct (get_or_create_tags db _) as [db1 tags] eqn:Hgo.
  injection Hcreate as <- <-. exists db1, tags.
  split_and!; [done|apply NoDup_flush_tags|done..].
Qed.

(** ** Every request preserves the integrity of the store *)

Lemma db_wf_empty : db_wf empty_db.
Proof.
  split; simpl; try apply NoDup_nil_2; intros x Hx; by apply elem_of_nil in Hx.
Qed.

Lemma get_or_create_tags_wf names db db1 tags :
  db_wf db → get_or_create_tags db names = (db1, tags) → db_wf db1.
Proof.
  intros [Hids Hfresh Htids Htfresh Htnames Htags] Hrun.
  apply get_or_create_tags_spec in Hrun as (Ht & Hn & _ & Hsub & _ & Hwf).
  destruct (Hwf Htids Htfresh Htnames) as (? & ? & ?).
  split; rewrite ?Ht, ?Hn; try done.
  intros x Hx. destruct (Htags x Hx) as [? Hin]. split; [done|].
  intros g Hg. by apply Hsub, Hin.
Qed.

Lemma create_task_wf clock body db db' r :
  db_wf db → create_task clock body db = Ok (db', r) → db_wf db'.
Proof.
  intros Hwf Hcreate.
  apply create_task_Ok in Hcreate as (db1 & tags & Hrun & _ & -> & _).
  pose proof (get_or_create_tags_wf _ _ _ _ Hwf Hrun)
    as [Hids Hfresh Htids Htfresh Htnames Htags].
  apply get_or_create_tags_spec in Hrun as (_ & _ & _ & _ & Hin & _).
  destruct (flush_tags_spec clock tags (db_tags db1) Htids Hin)
    as (Hnd & Hsub & _).
  split; simpl; try done.
  - rewrite fmap_app. apply NoDup_app. split_and!; [done| |apply NoDup_singleton].
    intros i Hi Hi'. apply list_elem_of_singleton in Hi'. subst i.
    apply list_elem_of_fmap in Hi as (x & Heq & Hx). apply Hfresh in Hx.
    simpl in Heq. lia.
  - intros x Hx. apply elem_of_app in Hx as [Hx|Hx].
    + apply Hfresh in Hx. lia.
    + apply list_elem_of_singleton in Hx as ->. simpl. lia.
  - intros x Hx. apply elem_of_app in Hx as [Hx|Hx]; [by apply Htags|].
    apply list_elem_of_singleton in Hx as ->. simpl. split; [done|].
    intros g Hg. by apply Hin, Hsub.
Qed.

Lemma replace_task_wf row db old :
  db_wf db → old ∈ db_tasks db → Task.id row = Task.id old →
  NoDup (Tag.id <$> Task.tags row) → Task.tags row ⊆ db_tags db →
  db_wf (replace_task row db).
Proof.
  intros [Hids Hfresh Htids Htfresh Htnames Htags] Hold Hid Hnd Hsub.
  split; try done.
  - by rewrite replace_task_ids.
  - intros x Hx. apply elem_of_replace_task in Hx as [->|[Hx _]]; simpl.
    + rewrite Hid. by apply Hfresh.
    + by apply Hfresh.
  - intros x Hx. apply elem_of_replace_task in Hx as [->|[Hx _]]; [done|].
    by apply Htags.
Qed.

Lemma update_task_wf clock task_id body db db' r :
  db_wf db → update_task clock task_id body db = Ok (db', r) → db_wf db'.
Proof.
  intros Hwf Hupd.
  apply update_task_Ok in Hupd
    as (task & db1 & task' & Hfind & -> & _ & Ht & Hn & Hid & _ & _ & _ & _ & _ & _ & _ & Htags).
  apply find_task_Some in Hfind as (Hin & _ & _).
  destruct (wf_task_tags _ Hwf _ Hin) as [Hnd Hsub].
  destruct (TaskUpdate.tags body) as [[names|]|].
  - destruct Htags as (new & Hrun & Hflush).
    pose proof (get_or_create_tags_wf _ _ _ _ Hwf Hrun) as Hwf1.
    apply get_or_create_tags_spec in Hrun as (_ & _ & _ & Hsub1 & Hnew & _).
    destruct (flush_tags_spec clock new (db_tags db1) (wf_tag_ids _ Hwf1) Hnew)
      as (Hnd' & Hsub' & _).
    rewrite <- Hflush in Hnd', Hsub'.
    apply (replace_task_wf _ _ task); try done; [by rewrite Ht|].
    intros g Hg. by apply Hnew, Hsub'.
  - destruct Htags as [-> Htags]. apply (replace_task_wf _ _ task); try done;
      by rewrite Htags.
  - destruct Htags as [-> Htags]. apply (replace_task_wf _ _ task); try done;
      by rewrite Htags.
Qed.

Lemma delete_task_wf clock task_id db db' :
  db_wf db → delete_task clock task_id db = Ok db' → db_wf db'.
Proof.
  unfold delete_task. intros Hwf Hdel.
  destruct (find_task task_id db) as [task|] eqn:Hfind; [|done].
  injection Hdel as <-. apply find_task_Some in Hfind as (Hin & _ & _).
  destruct (wf_task_tags _ Hwf _ Hin) as [Hnd Hsub].
  by apply (replace_task_wf _ _ task).
Qed.

Lemma step_wf clock req db : db_wf db → db_wf (step clock req db).
Proof.
  intros Hwf. destruct req as [body|q|task_id|task_id body|task_id]; simpl; try done.
  - unfold post_tasks. destruct (validate_TaskCreate _ _); [|done].
    destruct (create_task clock body db) as [[db' r]| | |] eqn:Hcreate; try done.
    by eapply create_task_wf.
  - unfold patch_task. destruct (validate_TaskUpdate _ _); [|done].
    destruct (update_task clock task_id body db) as [[db' r]| | |] eqn:Hupd; try done.
    by eapply update_task_wf.
  - destruct (delete_task clock task_id db) as [db'| | |] eqn:Hdel; try done.
    by eapply delete_task_wf.
Qed.

Lemma run_wf trace db : db_wf db → db_wf (run trace db).
Proof.
  revert db. induction trace as [|[clock req] trace IH]; intros db Hwf; [done|].
  simpl. apply IH. by apply step_wf.
Qed.

Lemma reachable_wf db : reachable db → db_wf db.
Proof. intros [trace ->]. apply run_wf, db_wf_empty. Qed.

(** ** Soft delete is terminal *)

Lemma step_keeps_deleted clock req db x :
  db_wf db → x ∈ db_tasks db → Task.is_deleted x = true →
  x ∈ db_tasks (step clock req db).
Proof.
  intros Hwf Hx Hdel.
  assert (∀ task_id task, find_task task_id db = Some task →
            Task.id x ≠ Task.id task) as Hother.
  { intros task_id task Hfind Hid.
    apply find_task_Some in Hfind as (Hin & _ & Hlive).
    assert (x = task) as -> by (eapply NoDup_fmap_eq; [apply Hwf|done..]).
    congruence. }
  destruct req as [body|q|task_id|task_id body|task_id]; simpl; try done.
  - unfold post_tasks. destruct (validate_TaskCreate _ _); [|done].
    destruct (create_task clock body db) as [[db' r]| | |] eqn:Hcreate; try done.
    apply create_task_Ok in Hcreate as (db1 & tags & Hrun & _ & -> & _).
    apply get_or_create_tags_spec in Hrun as (Ht & _).
    simpl. rewrite Ht. apply elem_of_app. by left.
  - unfold patch_task. destruct (validate_TaskUpdate _ _); [|done].
    destruct (update_task clock task_id body db) as [[db' r]| | |] eqn:Hupd; try done.
    apply update_task_Ok in Hupd
      as (task & db1 & task' & Hfind & -> & _ & Ht & _ & Hid & _).
    apply replace_task_keeps; [by rewrite Ht|]. rewrite Hid. by eapply Hother.
  - unfold delete_task.
    destruct (find_task task_id db) as [task|] eqn:Hfind; [|done].
    apply replace_task_keeps; [done|]. simpl. by eapply Hother.
Qed.

(** C7. From any reachable state and along any further requests (create,
    get, list, partial update, soft delete), a task whose [is_deleted] flag
    is true keeps its row unchanged, so the flag is never reset; the update
    body has no [is_deleted] field ([FieldValue] lists all the fields it can
    carry), and an update addressed to a soft-deleted task is not-found. *)
Theorem soft_delete_never_reset (db : DB) (x : Task.t)
    (trace : list (Clock * Request)) :
  reachable db → x ∈ db_tasks db → Task.is_deleted x = true →
  x ∈ db_tasks (run trace db) ∧
  (∀ y, y ∈ db_tasks (run trace db) → Task.id y = Task.id x →
        Task.is_deleted y = true) ∧
  (∀ clock body,
     update_task clock (Task.id x) body (run trace db) = NotFound (Task.id x)).
Proof.
  intros Hreach Hx Hdel. apply reachable_wf in Hreach.
  assert (db_wf (run trace db) ∧ x ∈ db_tasks (run trace db)) as [Hwf Hx'].
  { revert db Hreach Hx. induction trace as [|[clock req] trace IH];
      intros db Hwf Hx; [done|].
    simpl. apply IH; [by apply step_wf|by apply step_keeps_deleted]. }
  assert (∀ y, y ∈ db_tasks (run trace db) → Task.id y = Task.id x →
               Task.is_deleted y = true) as Hsame.
  { intros y Hy Hid.
    assert (y = x) as -> by (eapply NoDup_fmap_eq; [apply Hwf|done..]). done. }
  split_and!; [done..|].
  intros clock body. unfold update_task.
  rewrite find_task_None; [done|]. intros y Hy Hid. by apply Hsame.
Qed.

Lemma soft_delete_never_reset_witness :
  let c := mkClock 20000 in
  let db := run [(c 1, POST_tasks (TaskCreate.mk "A" None 3 20001 None));
                 (c 2, DELETE_task 1)] empty_db in
  let x := Task.mk 1 "A" None 3 20001 false true 1 2 [] in
  let body := TaskUpdate.mk None None None None (Some (Some true)) None in
  let trace := [(c 3, PATCH_task 1 body);
                (c 4, POST_tasks (TaskCreate.mk "B" None 1 20000 None));
                (c 5, DELETE_task 1)] in
  x ∈ db_tasks (run trace db) ∧
  update_task (c 6) 1 body (run trace db) = NotFound 1.
Proof.
  intros c db x body trace.
  assert (reachable db) as Hreach by (by eexists).
  assert (x ∈ db_tasks db) as Hx by (vm_compute; left).
  destruct (soft_delete_never_reset db x trace Hreach Hx eq_refl) as (Hin & _ & Hupd).
  split; [exact Hin|exact (Hupd (c 6) body)].
Defined.

(** ** Partial update *)

Lemma patch_task_Ok clock task_id body db db' r :
  patch_task clock task_id body db = Ok (db', r) →
  update_task clock task_id body db = Ok (db', r).
Proof. unfold patch_task. by destruct (validate_TaskUpdate _ _). Qed.

Lemma find_task_after_update clock task_id body db db' r :
  update_task clock task_id body db = Ok (db', r) →
  ∃ task', find_task task_id db' = Some task' ∧
           r = TaskResponse.from_orm_with_tags task'.
Proof.
  intros Hupd. pose proof Hupd as Hok. apply update_task_Ok in Hok
    as (task & db1 & task' & Hfind & -> & -> & Ht & _ & Hid & Hdel & _).
  exists task'. split; [|done].
  pose proof Hfind as (_ & Htid & Hlive)%find_task_Some.
  rewrite <- Htid, <- Hid. apply (find_task_replace _ _ task).
  - unfold find_task. rewrite Ht, Hid, Htid. exact Hfind.
  - congruence.
Qed.

(** C3. A partial update of an existing, non-deleted task leaves every
    field the body does not name at its previous value, and leaves every
    other task alone; when the update succeeds, each field the body names
    with a value takes that value, and a fetch returns what the update
    returned. *)
Theorem partial_update_preserves_absent_fields (clock : Clock) (task_id : Z)
    (body : TaskUpdate.t) (db : DB) (task : Task.t) :
  find_task task_id db = Some task →
  ∃ task',
    find_task task_id (step clock (PATCH_task task_id body) db) = Some task' ∧
    get_task task_id (step clock (PATCH_task task_id body) db) =
      Ok (TaskResponse.from_orm_with_tags task') ∧
    (TaskUpdate.title body = None → Task.title task' = Task.title task) ∧
    (TaskUpdate.description body = None →
       Task.description task' = Task.description task) ∧
    (TaskUpdate.priority body = None → Task.priority task' = Task.priority task) ∧
    (TaskUpdate.due_date body = None → Task.due_date task' = Task.due_date task) ∧
    (TaskUpdate.completed body = None →
       Task.completed task' = Task.completed task) ∧
    (TaskUpdate.tags body = None → Task.tags task' = Task.tags task) ∧
    (∀ y, y ∈ db_tasks db → Task.id y ≠ task_id →
          y ∈ db_tasks (step clock (PATCH_task task_id body) db)) ∧
    (∀ db' r, patch_task clock task_id body db = Ok (db', r) →
       r = TaskResponse.from_orm_with_tags task' ∧
       (∀ v, TaskUpdate.title body = Some (Some v) → Task.title task' = v) ∧
       (∀ v, TaskUpdate.description body = Some v → Task.description task' = v) ∧
       (∀ v, TaskUpdate.priority body = Some (Some v) → Task.priority task' = v) ∧
       (∀ v, TaskUpdate.due_date body = Some (Some v) → Task.due_date task' = v) ∧
       (∀ v, TaskUpdate.completed body = Some (Some v) →
             Task.completed task' = v)).
Proof.
  intros Hfind. simpl.
  destruct (patch_task clock task_id body db) as [[db' r]| | |] eqn:Hpatch;
    try (exists task; unfold get_task; rewrite Hfind; by split_and!).
  apply patch_task_Ok in Hpatch.
  destruct (find_task_after_update _ _ _ _ _ _ Hpatch) as (task' & Hfind' & ->).
  apply update_task_Ok in Hpatch
    as (task0 & db1 & task'' & Hfind0 & -> & Hr & Ht & _ & Hid & Hdel & _
        & Htitle & Hdesc & Hprio & Hdue & Hcomp & Htags).
  rewrite Hfind in Hfind0. injection Hfind0 as <-.
  assert (task'' = task') as ->.
  { pose proof Hfind as (_ & Htid & Hlive)%find_task_Some.
    assert (find_task task_id (replace_task task'' db1) = Some task'') as Hf.
    { rewrite <- Htid, <- Hid. apply (find_task_replace _ _ task); [|congruence].
      unfold find_task. rewrite Ht, Hid, Htid. exact Hfind. }
    congruence. }
  exists task'. unfold get_task. rewrite Hfind'.
  split_and!; try done.
  - intros Hnone. rewrite Hnone in Htitle. simpl in Htitle. congruence.
  - intros Hnone. by rewrite Hnone in Hdesc.
  - intros Hnone. rewrite Hnone in Hprio. simpl in Hprio. congruence.
  - intros Hnone. rewrite Hnone in Hdue. simpl in Hdue. congruence.
  - intros Hnone. rewrite Hnone in Hcomp. simpl in Hcomp. congruence.
  - intros Hnone. rewrite Hnone in Htags. tauto.
  - intros y Hy Hne. apply replace_task_keeps; [by rewrite Ht|].
    pose proof Hfind as (_ & Htid & _)%find_task_Some. congruence.
  - intros db'' r' [= <- <-]. split_and!; [done|..].
    + intros v Hv. rewrite Hv in Htitle. simpl in Htitle. congruence.
    + intros v Hv. by rewrite Hv in Hdesc.
    + intros v Hv. rewrite Hv in Hprio. simpl in Hprio. congruence.
    + intros v Hv. rewrite Hv in Hdue. simpl in Hdue. congruence.
    + intros v Hv. rewrite Hv in Hcomp. simpl in Hcomp. congruence.
Qed.

Lemma partial_update_preserves_absent_fields_witness :
  let db := step (mkClock 20000 1)
              (POST_tasks (TaskCreate.mk "A" (Some "B") 3 20001 None)) empty_db in
  let body := TaskUpdate.mk (Some (Some "C")) None None None None None in
  ∃ r, get_task 1 (step (mkClock 20000 2) (PATCH_task 1 body) db) = Ok r ∧
       TaskResponse.title r = "C" ∧
       TaskResponse.description r = Some "B" ∧
       TaskResponse.priority r = 3.
Proof.
  intros db body.
  destruct (partial_update_preserves_absent_fields (mkClock 20000 2) 1 body db
              (Task.mk 1 "A" (Some "B") 3 20001 false false 1 1 []) eq_refl)
    as (task' & _ & Hget & _ & Hdesc & Hprio & _ & _ & _ & _ & Hset).
  exists (TaskResponse.from_orm_with_tags task'). split; [exact Hget|].
  destruct (Hset _ _ eq_refl) as (_ & Htitle & _).
  simpl. rewrite (Htitle "C" eq_refl), (Hdesc eq_refl), (Hprio eq_refl).
  split_and!; reflexivity.
Defined.

(** ** Tags of an updated task *)

Lemma fmap_remove_dups {A B} `{EqDecision A, EqDecision B} (f : A → B)
    (l : list A) :
  (∀ x y, x ∈ l → y ∈ l → f x = f y → x = y) →
  f <$> remove_dups l = remove_dups (f <$> l).
Proof.
  induction l as [|x l IH]; intros Hinj; [done|].
  assert (f <$> remove_dups l = remove_dups (f <$> l)) as IH'.
  { apply IH. intros y z Hy Hz. apply Hinj; by right. }
  rewrite fmap_cons. simpl.
  destruct (decide_rel elem_of x l) as [Hx|Hx];
    destruct (decide_rel elem_of (f x) (f <$> l)) as [Hfx|Hfx].
  - done.
  - destruct Hfx. by apply list_elem_of_fmap_2.
  - destruct Hx. apply list_elem_of_fmap in Hfx as (y & Heq & Hy).
    rewrite (Hinj x y); [done|by left|by right|done].
  - rewrite fmap_cons. by rewrite IH'.
Qed.

Lemma flushed_tag_names clock new (tbl : list Tag.t) :
  NoDup (Tag.name <$> tbl) → new ⊆ tbl →
  Tag.name <$> flush_tags clock new ≡ₚ remove_dups (Tag.name <$> new) ∧
  NoDup (Tag.name <$> flush_tags clock new) ∧
  ∀ n, n ∈ Tag.name <$> flush_tags clock new ↔ n ∈ Tag.name <$> new.
Proof.
  intros Hnames Hnew.
  assert (Tag.name <$> flush_tags clock new ≡ₚ remove_dups (Tag.name <$> new))
    as Hperm.
  { rewrite <- fmap_remove_dups.
    - apply fmap_Permutation, flush_tags_Permutation.
    - intros g g' Hg Hg' Heq. eapply NoDup_fmap_eq; [exact Hnames|auto..]. }
  split; [exact Hperm|]. split.
  - rewrite Hperm. apply NoDup_remove_dups.
  - intros n. rewrite Hperm. apply elem_of_remove_dups.
Qed.

Lemma default_Some {A} (x : A) (field : option (option A)) :
  field ≠ Some None → ∃ v, default (Some x) field = Some v.
Proof. destruct field as [[v|]|]; simpl; intros; eauto; done. Qed.

(** An update of a live task that sets no required column to null is
    committed. *)
Lemma update_task_not_null clock task_id body db task :
  find_task task_id db = Some task →
  TaskUpdate.title body ≠ Some None →
  TaskUpdate.priority body ≠ Some None →
  TaskUpdate.due_date body ≠ Some None →
  TaskUpdate.completed body ≠ Some None →
  ∃ db' r, update_task clock task_id body db = Ok (db', r).
Proof.
  intros Hfind Ht Hp Hd Hc. unfold update_task. rewrite Hfind. cbv zeta.
  rewrite set_fields_spec.
  destruct (match TaskUpdate.tags body with
            | Some (Some names) =>
                let '(db1, tags) := get_or_create_tags db names in
                (db1, Some tags)
            | _ => (db, Attrs.tags (Attrs.of_task task))
            end) as [db1 tags].
  unfold flush_task. simpl.
  destruct (default_Some (Task.title task) _ Ht) as [v1 ->].
  destruct (default_Some (Task.priority task) _ Hp) as [v2 ->].
  destruct (default_Some (Task.due_date task) _ Hd) as [v3 ->].
  destruct (default_Some (Task.completed task) _ Hc) as [v4 ->].
  simpl. eauto.
Qed.

(** C9. For an existing, non-deleted task, a partial update that passes
    validation and sets no required column to null succeeds, whatever its
    tag list, and a fetch then returns what it returned: a body that sets
    [tags] to null, like one that omits [tags], leaves the task's tags as
    they were; a body that sets [tags] to the empty list leaves the task
    without tags; a body that sets [tags] to a list replaces the tags by one
    tag per distinct normalized non-empty name of that list, whatever the
    tags were before. *)
Theorem update_tags_null_empty_replace (clock : Clock) (task_id : Z)
    (body : TaskUpdate.t) (db : DB) (task : Task.t) :
  db_wf db →
  find_task task_id db = Some task →
  validate_TaskUpdate (today clock) body = [] →
  TaskUpdate.title body ≠ Some None →
  TaskUpdate.priority body ≠ Some None →
  TaskUpdate.due_date body ≠ Some None →
  TaskUpdate.completed body ≠ Some None →
  ∃ db' r,
    patch_task clock task_id body db = Ok (db', r) ∧
    get_task task_id db' = Ok r ∧
    (TaskUpdate.tags body = Some None ∨ TaskUpdate.tags body = None →
       TaskResponse.tags r = Tag.name <$> Task.tags task) ∧
    (TaskUpdate.tags body = Some (Some []) → TaskResponse.tags r = []) ∧
    (∀ names, TaskUpdate.tags body = Some (Some names) →
       TaskResponse.tags r ≡ₚ remove_dups (normalize_names names) ∧
       NoDup (TaskResponse.tags r) ∧
       ∀ n, n ∈ TaskResponse.tags r ↔ n ∈ normalize_names names).
Proof.
  intros Hwf Hfind Hvalid Ht Hp Hd Hc.
  destruct (update_task_not_null clock task_id body db task Hfind Ht Hp Hd Hc)
    as (db' & r & Hpatch).
  exists db', r. split; [unfold patch_task; by rewrite Hvalid|].
  destruct (find_task_after_update _ _ _ _ _ _ Hpatch) as (task1 & Hfind1 & Hr1).
  apply update_task_Ok in Hpatch
    as (task0 & db1 & task' & Hfind0 & -> & -> & _ & _ & _ & _ & _ & _ & _ & _ & _ & _ & Htags).
  rewrite Hfind in Hfind0. injection Hfind0 as <-.
  assert (∀ names, TaskUpdate.tags body = Some (Some names) →
     Tag.name <$> Task.tags task' ≡ₚ remove_dups (normalize_names names) ∧
     NoDup (Tag.name <$> Task.tags task') ∧
     ∀ n, n ∈ Tag.name <$> Task.tags task' ↔ n ∈ normalize_names names) as Hreplace.
  { intros names Hnames. rewrite Hnames in Htags.
    destruct Htags as (new & Hrun & ->).
    pose proof (get_or_create_tags_wf _ _ _ _ Hwf Hrun) as Hwf1.
    apply get_or_create_tags_spec in Hrun as (_ & _ & Hnew & _ & Hnewin & _).
    rewrite <- Hnew.
    apply (flushed_tag_names clock new (db_tags db1)); [apply Hwf1|done]. }
  split_and!.
  - unfold get_task. rewrite Hfind1. by rewrite Hr1.
  - intros [Hnull|Hnull]; rewrite Hnull in Htags; simpl; by rewrite (proj2 Htags).
  - intros Hempty. destruct (Hreplace _ Hempty) as (Hperm & _). simpl.
    by apply Permutation_nil_r in Hperm.
  - exact Hreplace.
Qed.

Lemma update_tags_null_empty_replace_witness :
  let c := Build_Clock 20000 1 2 (λ g, - Tag.id g) in
  let db := step c
              (POST_tasks (TaskCreate.mk "A" None 3 20001 (Some ["old"]))) empty_db in
  let tags v := TaskUpdate.mk None None None None None (Some v) in
  (∃ db' r, patch_task c 1 (tags None) db = Ok (db', r) ∧
            TaskResponse.tags r = ["old"]) ∧
  (∃ db' r, patch_task c 1 (tags (Some [])) db = Ok (db', r) ∧
            TaskResponse.tags r = []) ∧
  (∃ db' r, patch_task c 1 (tags (Some ["New"; " NEW "; " updated"])) db =
              Ok (db', r) ∧
            TaskResponse.tags r ≡ₚ ["new"; "updated"]).
Proof.
  intros c db tags.
  assert (db_wf db) as Hwf.
  { apply reachable_wf.
    by exists [(c, POST_tasks (TaskCreate.mk "A" None 3 20001 (Some ["old"])))]. }
  assert (∀ v, ∃ db' r, patch_task c 1 (tags v) db = Ok (db', r) ∧
            (v = None → TaskResponse.tags r = ["old"]) ∧
            (v = Some [] → TaskResponse.tags r = []) ∧
            (∀ names, v = Some names →
               TaskResponse.tags r ≡ₚ remove_dups (normalize_names names)))
    as Hcases.
  { intros v.
    destruct (update_tags_null_empty_replace c 1 (tags v) db
                (Task.mk 1 "A" None 3 20001 false false 1 2 [Tag.mk 1 "old"])
                Hwf eq_refl)
      as (db' & r & Hpatch & _ & Hnull & Hempty & Hrepl); try done.
    exists db', r. split_and!; [done|..].
    - intros ->. apply Hnull. by left.
    - intros ->. by apply Hempty.
    - intros names ->. by apply Hrepl. }
  split_and!.
  - destruct (Hcases None) as (db' & r & ? & Hr & _). eauto.
  - destruct (Hcases (Some [])) as (db' & r & ? & _ & Hr & _). eauto.
  - destruct (Hcases (Some ["New"; " NEW "; " updated"]))
      as (db' & r & ? & _ & _ & Hr). exists db', r. split; [done|].
    exact (Hr _ eq_refl).
Defined.

(** ** The list query against the specification's notion of a match *)

Lemma distinct_sublist l : distinct l `sublist_of` l.
Proof.
  induction l as [|x l IH]; [done|]. simpl.
  case_decide; [by apply sublist_cons|by apply sublist_skip].
Qed.

Lemma NoDup_distinct l : NoDup (Task.columns <$> distinct l).
Proof.
  induction l as [|x l IH]; [apply NoDup_nil_2|]. simpl.
  case_decide as Hx; [done|]. rewrite fmap_cons. apply NoDup_cons. split; [|done].
  intros Hin. apply Hx.
  eapply sublist_subseteq; [|exact Hin]. apply fmap_sublist, distinct_sublist.
Qed.

Lemma elem_of_distinct l x :
  (∀ y z, y ∈ l → z ∈ l → Task.columns y = Task.columns z → y = z) →
  x ∈ distinct l ↔ x ∈ l.
Proof.
  intros Hinj. split.
  - apply sublist_subseteq, distinct_sublist.
  - induction l as [|a l IH]; [done|]. intros Hx. simpl.
    assert (∀ y z, y ∈ l → z ∈ l → Task.columns y = Task.columns z → y = z)
      as Hinj' by (intros y z Hy Hz; apply Hinj; by right).
    case_decide as Ha.
    + apply IH; [done|].
      apply elem_of_cons in Hx as [->|Hx]; [|done].
      apply list_elem_of_fmap in Ha as (y & Hcol & Hy).
      rewrite (Hinj a y); [done|by left|by right|done].
    + apply elem_of_cons in Hx as [->|Hx]; [by left|right]. by apply IH.
Qed.

Lemma elem_of_join_tags l x g :
  (x, g) ∈ join_tags l ↔ x ∈ l ∧ g ∈ Task.tags x.
Proof.
  unfold join_tags. rewrite list_elem_of_bind. split.
  - intros (y & Hxg & Hy). apply list_elem_of_fmap in Hxg as (g' & [= -> ->] & Hg').
    done.
  - intros [Hx Hg]. exists x. split; [|done]. by apply list_elem_of_fmap_2.
Qed.

Lemma columns_key db x y :
  db_wf db → x ∈ db_tasks db → y ∈ db_tasks db →
  Task.columns x = Task.columns y → x = y.
Proof.
  intros Hwf Hx Hy Hcol. eapply NoDup_fmap_eq; [apply (wf_task_ids _ Hwf)|done..|].
  unfold Task.columns in Hcol. congruence.
Qed.

Lemma elem_of_list_query completed priority tags db x :
  db_wf db →
  x ∈ list_query completed priority tags db ↔
  x ∈ db_tasks db ∧ matches completed priority tags x.
Proof.
  intros Hwf. unfold list_query, matches, requested_tags.
  set (l2 := match priority with
             | Some p => filter (λ x, Task.priority x = p) _
             | None => _
             end).
  assert (∀ y, y ∈ l2 ↔ y ∈ db_tasks db ∧ Task.is_deleted y = false ∧
            from_option (λ c, Task.completed y = c) True completed ∧
            from_option (λ p, Task.priority y = p) True priority) as Hl2.
  { intros y. subst l2. destruct completed, priority; simpl;
      rewrite ?list_elem_of_filter; tauto. }
  destruct tags as [[|c s]|]; simpl; [rewrite Hl2; tauto| |rewrite Hl2; tauto].
  destruct (parse_tag_names (String c s)) as [|n ns]; simpl; [rewrite Hl2; tauto|].
  rewrite elem_of_distinct.
  - rewrite list_elem_of_fmap, Exists_exists. split.
    + intros ([y g] & -> & Hyg). apply list_elem_of_filter in Hyg as [Hname Hyg].
      apply elem_of_join_tags in Hyg as [Hy Hg]. apply Hl2 in Hy. simpl in *.
      naive_solver.
    + intros (Hx & Hdel & Hc & Hp & g & Hg & Hname). exists (x, g).
      split; [done|]. apply list_elem_of_filter. split; [done|].
      apply elem_of_join_tags. split; [|done]. apply Hl2. tauto.
  - assert (∀ y, y ∈ fst <$> filter (λ r : Task.t * Tag.t, Tag.name r.2 ∈ n :: ns)
                             (join_tags l2) → y ∈ db_tasks db) as Hrows.
    { intros y Hy. apply list_elem_of_fmap in Hy as ([y' g] & -> & Hyg).
      apply list_elem_of_filter in Hyg as [_ Hyg].
      apply elem_of_join_tags in Hyg as [Hy _]. by apply Hl2 in Hy as [Hy _]. }
    intros y z Hy Hz. apply (columns_key db); auto.
Qed.

Lemma NoDup_db_tasks db : db_wf db → NoDup (db_tasks db).
Proof. intros Hwf. eapply NoDup_fmap_1, (wf_task_ids _ Hwf). Qed.

Lemma NoDup_list_query completed priority tags db :
  db_wf db → NoDup (Task.id <$> list_query completed priority tags db).
Proof.
  intros Hwf. apply NoDup_fmap_2_strong.
  - intros x y Hx%elem_of_list_query Hy%elem_of_list_query Hid; [|done..].
    eapply NoDup_fmap_eq; [apply (wf_task_ids _ Hwf)|tauto..|done].
  - pose proof (NoDup_db_tasks _ Hwf) as Hnd. unfold list_query.
    set (l2 := match priority with
               | Some p => filter (λ x, Task.priority x = p) _
               | None => _
               end).
    assert (NoDup l2) as Hl2.
    { subst l2. destruct completed, priority; repeat apply NoDup_filter; done. }
    destruct tags as [[|c s]|]; [done| |done].
    destruct (parse_tag_names (String c s)) as [|n ns]; [done|].
    eapply NoDup_fmap_1, NoDup_distinct.
Qed.

Lemma list_query_Permutation completed priority tags db :
  db_wf db →
  list_query completed priority tags db ≡ₚ
    filter (matches completed priority tags) (db_tasks db).
Proof.
  intros Hwf. apply NoDup_Permutation.
  - eapply NoDup_fmap_1, NoDup_list_query, Hwf.
  - apply NoDup_filter, NoDup_db_tasks, Hwf.
  - intros x. rewrite elem_of_list_query, list_elem_of_filter by done. tauto.
Qed.

Lemma field_errors_nil loc r : field_errors loc r = [] → r = None.
Proof. by destruct r. Qed.

Lemma validate_ListQuery_ok q :
  validate_ListQuery q = [] →
  1 ≤ default 10 (ListQuery.limit q) ≤ 100 ∧ 0 ≤ default 0 (ListQuery.offset q).
Proof.
  unfold validate_ListQuery. intros Hvalid.
  apply app_nil in Hvalid as [_ Hvalid]. apply app_nil in Hvalid as [Hlimit Hoffset].
  apply field_errors_nil in Hlimit, Hoffset. split.
  - destruct (ListQuery.limit q) as [v|]; simpl in *; [|lia].
    unfold check_range in Hlimit. repeat case_decide; try done. lia.
  - destruct (ListQuery.offset q) as [v|]; simpl in *; [|lia].
    unfold check_ge in Hoffset. case_decide; try done. lia.
Qed.

(** C1. Every list request that passes validation succeeds with a pair
    (total, page): total is the number of non-deleted tasks that match the
    filters, whatever limit and offset are; the page is the slice of at most
    limit tasks that starts at position offset of the matching tasks ordered
    by creation time descending; when offset >= total the page is empty and
    the request still succeeds. *)
Theorem list_total_and_page (order_by : list Task.t → list Task.t)
    (q : ListQuery.t) (db : DB) :
  db_wf db →
  orders_by_created_at_desc order_by →
  validate_ListQuery q = [] →
  ∃ r ordered,
    get_tasks order_by q db = Ok r ∧
    PaginatedTaskResponse.total r =
      Z.of_nat (length (filter (matches (ListQuery.completed q)
                                  (ListQuery.priority q) (ListQuery.tags q))
                          (db_tasks db))) ∧
    ordered ≡ₚ filter (matches (ListQuery.completed q) (ListQuery.priority q)
                         (ListQuery.tags q)) (db_tasks db) ∧
    Sorted created_at_desc ordered ∧
    PaginatedTaskResponse.tasks r =
      TaskResponse.from_orm_with_tags <$>
        take (Z.to_nat (default 10 (ListQuery.limit q)))
             (drop (Z.to_nat (default 0 (ListQuery.offset q))) ordered) ∧
    Z.of_nat (length (PaginatedTaskResponse.tasks r)) ≤
      default 10 (ListQuery.limit q) ∧
    (PaginatedTaskResponse.total r ≤ default 0 (ListQuery.offset q) →
     PaginatedTaskResponse.tasks r = []).
Proof.
  intros Hwf Horder Hvalid.
  destruct (validate_ListQuery_ok _ Hvalid) as [Hlimit Hoffset].
  unfold get_tasks. rewrite Hvalid.
  set (query := list_query (ListQuery.completed q) (ListQuery.priority q)
                  (ListQuery.tags q) db).
  destruct (Horder query) as [Hperm Hsorted].
  pose proof (list_query_Permutation (ListQuery.completed q)
                (ListQuery.priority q) (ListQuery.tags q) db Hwf) as Hquery.
  fold query in Hquery.
  eexists _, (order_by query). split; [reflexivity|]. simpl. fold query.
  split_and!.
  - by rewrite Hquery.
  - by rewrite Hperm.
  - done.
  - done.
  - rewrite length_fmap, length_take. lia.
  - intros Htotal. rewrite drop_ge; [by rewrite take_nil|].
    rewrite Hperm. lia.
Qed.

Lemma list_total_and_page_witness :
  let c := mkClock 20000 in
  let db := run [(c 1, POST_tasks (TaskCreate.mk "A" None 3 20001 None));
                 (c 2, POST_tasks (TaskCreate.mk "B" None 5 20001 None));
                 (c 3, POST_tasks (TaskCreate.mk "C" None 3 20001 None));
                 (c 4, DELETE_task 2)] empty_db in
  let q := ListQuery.mk None None None (Some 2) (Some 5) in
  ∃ r, get_tasks order_forward q db = Ok r ∧
       PaginatedTaskResponse.total r = 2 ∧
       PaginatedTaskResponse.tasks r = [].
Proof.
  intros c db q.
  assert (db_wf db) as Hwf by (apply reachable_wf; by eexists).
  destruct (list_total_and_page order_forward q db Hwf order_forward_ok eq_refl)
    as (r & ordered & Hget & Htotal & _ & _ & _ & _ & Hempty).
  exists r. split; [exact Hget|].
  assert (PaginatedTaskResponse.total r = 2) as Htwo
    by (rewrite Htotal; vm_compute; reflexivity).
  split; [exact Htwo|]. apply Hempty. rewrite Htwo. simpl. lia.
Defined.

(** ** Pages are slices of a duplicate-free ordering *)


Lemma filter_none {A} (P : A → Prop) `{!∀ x, Decision (P x)} (l : list A) :
  (∀ x, x ∈ l → ¬ P x) → filter P l = [].
Proof.
  induction l as [|x l IH]; intros Hl; [done|].
  rewrite filter_cons_False by (apply Hl; by left).
  apply IH. intros y Hy. apply Hl. by right.
Qed.





Example tag_or_filter_total_is_one :
  let db := step (mkClock 20000 1)
              (POST_tasks (TaskCreate.mk "A" None 3 20001 (Some ["work"; "urgent"])))
              empty_db in
  length (filter (λ r : Task.t * Tag.t, Tag.name r.2 ∈ ["work"; "urgent"])
            (join_tags (db_tasks db))) = 2%nat ∧
  PaginatedTaskResponse.total
    (list_tasks order_forward None None (Some "work,urgent") 10 0 db) = 1.
Proof. vm_compute. done. Qed.

(** ** Pagination *)

(** Rows of pairwise distinct [created_at] have one descending order. *)
Lemma ordering_unique (o1 o2 : list Task.t → list Task.t) (rows : list Task.t) :
  orders_by_created_at_desc o1 → orders_by_created_at_desc o2 →
  NoDup (Task.created_at <$> rows) → o2 rows = o1 rows.
Proof.
  intros H1 H2 Hnd. destruct (H1 rows) as [Hp1 Hs1], (H2 rows) as [Hp2 Hs2].
  apply (Sorted_unique_strong created_at_desc); [|done..|by rewrite Hp1, Hp2].
  intros x y Hx Hy Hxy Hyx. rewrite Hp2 in Hx. rewrite Hp1 in Hy.
  eapply NoDup_fmap_eq; [exact Hnd|done..|].
  unfold created_at_desc in *. lia.
Qed.

(** C6, with equal creation times.  The order of two tasks created at the
    same instant is the store's choice, query by query: here tasks 3 and 4
    share their creation time, the first page is cut from one admissible
    ordering and the second from another, and task 3 comes twice while
    task 4 is never listed. *)
Lemma pagination_overlaps_on_equal_created_at :
  let c := mkClock 20000 in
  let create t := POST_tasks (TaskCreate.mk t None 3 20001 None) in
  let db := run [(c 1, create "T1"); (c 2, create "T2"); (c 3, create "T3");
                 (c 3, create "T4"); (c 5, create "T5")] empty_db in
  let page o offset :=
    TaskResponse.id <$>
      PaginatedTaskResponse.tasks (list_tasks o None None None 2 offset db) in
  orders_by_created_at_desc order_forward ∧
  orders_by_created_at_desc order_backward ∧
  Task.id <$> db_tasks db = [1; 2; 3; 4; 5] ∧
  page order_forward 0 = [5; 3] ∧
  page order_backward 2 = [3; 2] ∧
  page order_forward 4 = [1] ∧
  ¬ (page order_forward 0 ++ page order_backward 2 ++ page order_forward 4
       ≡ₚ [1; 2; 3; 4; 5]).
Proof.
  intros c create db page.
  split; [exact order_forward_ok|]. split; [exact order_backward_ok|].
  split; [reflexivity|]. split; [reflexivity|]. split; [reflexivity|].
  split; [reflexivity|].
  intros Hperm. assert (4 ∈ [5; 3] ++ [3; 2] ++ [1]) as Hin.
  { change ([5; 3] ++ [3; 2] ++ [1]) with
      (page order_forward 0 ++ page order_backward 2 ++ page order_forward 4).
    rewrite Hperm. set_solver. }
  set_solver.
Qed.

(** C6, with distinct creation times.  The listing is sorted by creation
    time descending, and the sort key stops there.  When the listed tasks
    have pairwise distinct creation times and there are 5 of them, the pages
    limit=2 at offsets 0, 2 and 4 -- each under whatever ordering the store
    applied -- put end to end are the 5 tasks in descending creation time:
    none twice, none missing. *)
Theorem pagination_partitions_distinct_created_at
    (o1 o2 o3 : list Task.t → list Task.t)
    (completed : option bool) (priority : option Z) (tags : option string)
    (db : DB) :
  db_wf db →
  orders_by_created_at_desc o1 →
  orders_by_created_at_desc o2 →
  orders_by_created_at_desc o3 →
  length (list_query completed priority tags db) = 5%nat →
  NoDup (Task.created_at <$> list_query completed priority tags db) →
  PaginatedTaskResponse.tasks (list_tasks o1 completed priority tags 2 0 db) ++
  PaginatedTaskResponse.tasks (list_tasks o2 completed priority tags 2 2 db) ++
  PaginatedTaskResponse.tasks (list_tasks o3 completed priority tags 2 4 db)
    = TaskResponse.from_orm_with_tags <$>
        o1 (list_query completed priority tags db) ∧
  o1 (list_query completed priority tags db) ≡ₚ
    filter (matches completed priority tags) (db_tasks db) ∧
  NoDup (Task.id <$> o1 (list_query completed priority tags db)) ∧
  Sorted created_at_desc (o1 (list_query completed priority tags db)).
Proof.
  intros Hwf H1 H2 H3 Hlen Hnd.
  set (rows := list_query completed priority tags db) in *.
  destruct (H1 rows) as [Hperm Hsorted].
  split_and!.
  - unfold list_tasks. fold rows. simpl PaginatedTaskResponse.tasks.
    rewrite (ordering_unique o1 o2 rows), (ordering_unique o1 o3 rows) by done.
    rewrite <- Hperm in Hlen.
    destruct (o1 rows) as [|t1 [|t2 [|t3 [|t4 [|t5 [|t6 l]]]]]]; done.
  - rewrite Hperm. by apply list_query_Permutation.
  - rewrite Hperm. by apply NoDup_list_query.
  - done.
Qed.

Lemma pagination_partitions_distinct_created_at_witness :
  let c := mkClock 20000 in
  let create t := POST_tasks (TaskCreate.mk t None 3 20001 None) in
  let db := run [(c 1, create "T1"); (c 2, create "T2"); (c 3, create "T3");
                 (c 4, create "T4"); (c 5, create "T5")] empty_db in
  let page o offset :=
    TaskResponse.id <$>
      PaginatedTaskResponse.tasks (list_tasks o None None None 2 offset db) in
  page order_forward 0 ++ page order_backward 2 ++ page order_forward 4 =
    [5; 4; 3; 2; 1].
Proof.
  intros c create db page.
  assert (db_wf db) as Hwf by (apply reachable_wf; by eexists).
  assert (NoDup (Task.created_at <$> list_query None None None db)) as Hnd.
  { change (NoDup [1; 2; 3; 4; 5]).
    repeat (apply NoDup_cons; split; [set_solver|]). apply NoDup_nil_2. }
  destruct (pagination_partitions_distinct_created_at
              order_forward order_backward order_forward None None None db Hwf
              order_forward_ok order_backward_ok order_forward_ok eq_refl Hnd)
    as (Hpages & _).
  unfold page. rewrite <- !fmap_app, Hpages. reflexivity.
Defined.

(** ** Tags of a created task *)

Lemma find_task_inserted task db :
  db_wf db → Task.id task = next_task_id db → Task.is_deleted task = false →
  find_task (Task.id task) (insert_task task db) = Some task.
Proof.
  intros Hwf Hid Hlive. unfold find_task. simpl. rewrite filter_app.
  assert (filter (λ x, Task.id x = Task.id task ∧ Task.is_deleted x = false)
            (db_tasks db) = []) as ->.
  { pose proof (wf_task_fresh _ Hwf) as Hfresh.
    induction (db_tasks db) as [|x l IH]; [done|].
    rewrite filter_cons_False.
    - apply IH. intros y Hy. apply Hfresh. by right.
    - intros [Hx _]. specialize (Hfresh x (list_elem_of_here _ _)). lia. }
  by rewrite filter_cons_True.
Qed.

(** C5. For every create request that passes validation: each supplied
    tag name is trimmed and lowercased before lookup-or-create and names
    empty after that are dropped; the task is created, and fetching it
    returns what the create returned, whose tags are one per distinct
    normalized name: no name twice, and exactly the normalized non-empty
    names of the request, in the order the store hands them back. *)
Theorem create_tags_roundtrip (clock : Clock) (body : TaskCreate.t) (db : DB) :
  db_wf db →
  validate_TaskCreate (today clock) body = [] →
  Tag.name <$> (get_or_create_tags db (default [] (TaskCreate.tags body))).2 =
    normalize_names (default [] (TaskCreate.tags body)) ∧
  ∃ db' r, post_tasks clock body db = Ok (db', r) ∧
           get_task (TaskResponse.id r) db' = Ok r ∧
           TaskResponse.tags r ≡ₚ
             remove_dups (normalize_names (default [] (TaskCreate.tags body))) ∧
           NoDup (TaskResponse.tags r) ∧
           ∀ n, n ∈ TaskResponse.tags r ↔
                n ∈ normalize_names (default [] (TaskCreate.tags body)).
Proof.
  intros Hwf Hvalid.
  destruct (get_or_create_tags db (default [] (TaskCreate.tags body)))
    as [db1 tags] eqn:Hrun.
  pose proof (get_or_create_tags_wf _ _ _ _ Hwf Hrun) as Hwf1.
  pose proof (get_or_create_tags_spec _ _ _ _ Hrun)
    as (_ & _ & Hnames & _ & Hin & _).
  split; [done|].
  unfold post_tasks. rewrite Hvalid. unfold create_task.
  assert (match TaskCreate.tags body with
          | Some ((_ :: _) as names) => get_or_create_tags db names
          | _ => (db, [])
          end = (db1, tags)) as ->.
  { rewrite <- Hrun. by destruct (TaskCreate.tags body) as [[|n ns]|]. }
  eexists _, _. split; [reflexivity|]. split.
  - unfold get_task. simpl TaskResponse.id.
    by rewrite (find_task_inserted (Task.mk (next_task_id db1) _ _ _ _ _ _ _ _ _)).
  - simpl TaskResponse.tags. rewrite <- Hnames.
    apply (flushed_tag_names clock tags (db_tags db1)); [apply Hwf1|done].
Qed.

Lemma create_tags_roundtrip_witness :
  let clock := Build_Clock 20000 1 2 (λ g, - Tag.id g) in
  let body tags := TaskCreate.mk "A" None 3 20001 (Some tags) in
  (∃ db' r, post_tasks clock (body ["Work"; " urgent "]) empty_db = Ok (db', r) ∧
            get_task (TaskResponse.id r) db' = Ok r ∧
            TaskResponse.tags r ≡ₚ ["work"; "urgent"]) ∧
  (∃ db' r, post_tasks clock (body ["Work"; "  "; "work"]) empty_db = Ok (db', r) ∧
            get_task (TaskResponse.id r) db' = Ok r ∧
            TaskResponse.tags r ≡ₚ ["work"]).
Proof.
  intros clock body. split.
  - destruct (create_tags_roundtrip clock (body ["Work"; " urgent "]) empty_db
                db_wf_empty eq_refl)
      as (_ & db' & r & Hpost & Hget & Hperm & _).
    exists db', r. split_and!; [done..|]. exact Hperm.
  - destruct (create_tags_roundtrip clock (body ["Work"; "  "; "work"]) empty_db
                db_wf_empty eq_refl)
      as (_ & db' & r & Hpost & Hget & Hperm & _).
    exists db', r. split_and!; [done..|]. exact Hperm.
Defined.

(** ** The model against the repository's test-suite ([tests/test_tasks.py]) *)

Example test_filter_by_tags :
  let c := mkClock 20000 in
  let create t p tags := POST_tasks (TaskCreate.mk t None p 20001 (Some tags)) in
  let db := run [(c 1, create "Work Task" 3 ["work"]);
                 (c 2, create "Personal Task" 3 ["personal"]);
                 (c 3, create "Work Urgent" 5 ["work"; "urgent"])] empty_db in
  let total tags :=
    PaginatedTaskResponse.total <$>
      ok (get_tasks order_forward (ListQuery.mk None None (Some tags) None None) db) in
  total "work" = Some 2 ∧ total "work,personal" = Some 3 ∧
  total "nonexistent" = Some 0.
Proof. vm_compute. done. Qed.

Example test_list_tasks_pagination :
  let c := mkClock 20000 in
  let create t := POST_tasks (TaskCreate.mk t None 3 20001 None) in
  let db := run [(c 1, create "Task 0"); (c 2, create "Task 1");
                 (c 3, create "Task 2"); (c 4, create "Task 3");
                 (c 5, create "Task 4")] empty_db in
  let page offset :=
    ok (get_tasks order_forward
          (ListQuery.mk None None None (Some 2) (Some offset)) db) in
  PaginatedTaskResponse.total <$> page 0 = Some 5 ∧
  length ∘ PaginatedTaskResponse.tasks <$> page 0 = Some 2%nat ∧
  length ∘ PaginatedTaskResponse.tasks <$> page 2 = Some 2%nat.
Proof. vm_compute. done. Qed.

Example test_update_task_tags :
  let c := mkClock 20000 in
  let db := step (c 1)
              (POST_tasks (TaskCreate.mk "Test Task" None 3 20001 (Some ["old"])))
              empty_db in
  let body := TaskUpdate.mk None None None None None (Some (Some ["new"; "updated"])) in
  (TaskResponse.tags ∘ snd) <$> ok (patch_task (c 2) 1 body db) =
    Some ["new"; "updated"].
Proof. vm_compute. done. Qed.

Example test_delete_task_idempotent :
  let c := mkClock 20000 in
  let db := step (c 1) (POST_tasks (TaskCreate.mk "Test Task" None 3 20001 None))
              empty_db in
  delete_task (c 3) 1 (step (c 2) (DELETE_task 1) db) = NotFound 1 ∧
  delete_task (c 2) 9999 db = NotFound 9999 ∧
  patch_task (c 2) 9999 (TaskUpdate.mk (Some (Some "New Title")) None None None None None) db
    = NotFound 9999.
Proof. vm_compute. done. Qed.


(** * Further properties of the handlers *)

(** ** The details map of a validation failure *)

(** X1. The details map of a validation failure maps a field to the message
    of the last error located at that field (the location joined with dots,
    the [body] component left out), and has no entry for a field without an
    error. *)
Theorem validation_details_last_error (errors : list ValidationError.t)
    (field : string) :
  validation_exception_handler errors !! field =
    ValidationError.msg <$>
      last (filter (λ e, error_field e = field) errors).
Proof.
  unfold validation_exception_handler.
  induction errors as [|e errors IH] using rev_ind; [done|].
  rewrite foldl_app, filter_app. simpl.
  destruct (decide (error_field e = field)) as [<-|Hne].
  - rewrite lookup_insert_eq, filter_cons_True, filter_nil by done.
    by rewrite last_snoc.
  - rewrite lookup_insert_ne by done.
    by rewrite (filter_cons_False _ e), filter_nil, app_nil_r by done.
Qed.

(** ** Which requests validation lets through *)

Ltac details_key :=
  split;
  [ intros [? Hkey]; first [lia | vm_compute in Hkey; discriminate Hkey]
  | intros ?; first [lia | exfalso; lia | eexists; vm_compute; reflexivity] ].

(** X2. A create request reaches [create_task] exactly when its title has 1
    to 200 characters, its priority is between 1 and 5 and its due date is
    not before the server's current date; otherwise it is a validation
    failure whose details name exactly the offending fields among [title],
    [priority] and [due_date]. *)
Theorem post_tasks_validation_outcome (clock : Clock) (body : TaskCreate.t)
    (db : DB) :
  ((1 ≤ String.length (TaskCreate.title body) ≤ 200)%nat ∧
   1 ≤ TaskCreate.priority body ≤ 5 ∧
   today clock ≤ TaskCreate.due_date body →
   post_tasks clock body db = create_task clock body db) ∧
  (¬ ((1 ≤ String.length (TaskCreate.title body) ≤ 200)%nat ∧
      1 ≤ TaskCreate.priority body ≤ 5 ∧
      today clock ≤ TaskCreate.due_date body) →
   ∃ details,
     post_tasks clock body db = ValidationFailed details ∧
     (is_Some (details !! "title") ↔
        ¬ (1 ≤ String.length (TaskCreate.title body) ≤ 200)%nat) ∧
     (is_Some (details !! "priority") ↔ ¬ 1 ≤ TaskCreate.priority body ≤ 5) ∧
     (is_Some (details !! "due_date") ↔
        ¬ today clock ≤ TaskCreate.due_date body)).
Proof.
  unfold post_tasks, validate_TaskCreate, check_length, check_priority,
    check_range, due_date_not_in_past.
  split.
  - intros (Ht & Hp & Hd). by rewrite !decide_False by lia.
  - intros Hbad. repeat case_decide; simpl; try (exfalso; lia);
      (eexists; split; [reflexivity|]; split_and!; details_key).
Qed.

Lemma patch_task_rejects clock task_id body db loc msg :
  ValidationError.mk loc msg ∈ validate_TaskUpdate (today clock) body →
  ∃ details, patch_task clock task_id body db = ValidationFailed details ∧
             is_Some (details !! Str.join "." (filter (λ l, l ≠ "body") loc)).
Proof.
  intros He. unfold patch_task.
  destruct (validate_TaskUpdate (today clock) body) as [|e errors] eqn:Herr;
    [by apply elem_of_nil in He|].
  eexists. split; [reflexivity|]. by apply (validation_details_field _ _ He).
Qed.

(** X3. A partial update is validated before the task is looked up: a title
    set to a string outside 1 to 200 characters, a priority set to an
    integer outside 1 to 5, or a due date set to a date before the server's
    current date is a validation failure naming that field, whether or not
    the task exists; a body whose set values are all within bounds (null and
    unset fields are not checked) goes to [update_task]. *)
Theorem patch_task_validation_outcome (clock : Clock) (task_id : Z)
    (body : TaskUpdate.t) (db : DB) :
  (∀ s, TaskUpdate.title body = Some (Some s) →
        ¬ (1 ≤ String.length s ≤ 200)%nat →
        ∃ details, patch_task clock task_id body db = ValidationFailed details ∧
                   is_Some (details !! "title")) ∧
  (∀ p, TaskUpdate.priority body = Some (Some p) → ¬ 1 ≤ p ≤ 5 →
        ∃ details, patch_task clock task_id body db = ValidationFailed details ∧
                   is_Some (details !! "priority")) ∧
  (∀ d, TaskUpdate.due_date body = Some (Some d) → d < today clock →
        ∃ details, patch_task clock task_id body db = ValidationFailed details ∧
                   is_Some (details !! "due_date")) ∧
  ((∀ s, TaskUpdate.title body = Some (Some s) →
         (1 ≤ String.length s ≤ 200)%nat) →
   (∀ p, TaskUpdate.priority body = Some (Some p) → 1 ≤ p ≤ 5) →
   (∀ d, TaskUpdate.due_date body = Some (Some d) → today clock ≤ d) →
   patch_task clock task_id body db = update_task clock task_id body db).
Proof.
  split_and!.
  - intros s Hs Hbad.
    assert (∃ msg, check_length 1 200 s = Some msg) as [msg Hmsg].
    { unfold check_length. repeat case_decide; eauto. lia. }
    apply (patch_task_rejects clock task_id body db ["body"; "title"] msg).
    unfold validate_TaskUpdate. rewrite Hs. simpl. rewrite Hmsg. set_solver.
  - intros p Hp Hbad.
    assert (∃ msg, check_priority p = Some msg) as [msg Hmsg].
    { unfold check_priority, check_range. repeat case_decide; eauto. lia. }
    apply (patch_task_rejects clock task_id body db ["body"; "priority"] msg).
    unfold validate_TaskUpdate. rewrite Hp. simpl. rewrite Hmsg. set_solver.
  - intros d Hd Hbad.
    apply (patch_task_rejects clock task_id body db ["body"; "due_date"]
             "Value error, due_date cannot be in the past").
    unfold validate_TaskUpdate. rewrite Hd. simpl.
    unfold due_date_not_in_past. rewrite decide_True by done. set_solver.
  - intros Ht Hp Hd. unfold patch_task, validate_TaskUpdate.
    assert (when_value (check_length 1 200) (TaskUpdate.title body) = None) as ->.
    { destruct (TaskUpdate.title body) as [[s|]|]; simpl; try done.
      specialize (Ht s eq_refl). unfold check_length.
      by rewrite !decide_False by lia. }
    assert (when_value check_priority (TaskUpdate.priority body) = None) as ->.
    { destruct (TaskUpdate.priority body) as [[p|]|]; simpl; try done.
      specialize (Hp p eq_refl). unfold check_priority, check_range.
      by rewrite !decide_False by lia. }
    assert (when_value (due_date_not_in_past (today clock))
              (TaskUpdate.due_date body) = None) as ->.
    { destruct (TaskUpdate.due_date body) as [[d|]|]; simpl; try done.
      specialize (Hd d eq_refl). unfold due_date_not_in_past.
      by rewrite decide_False by lia. }
    done.
Qed.

Lemma get_tasks_rejects order_by q db loc msg :
  ValidationError.mk loc msg ∈ validate_ListQuery q →
  ∃ details, get_tasks order_by q db = ValidationFailed details ∧
             is_Some (details !! Str.join "." (filter (λ l, l ≠ "body") loc)).
Proof.
  intros He. unfold get_tasks.
  destruct (validate_ListQuery q) as [|e errors] eqn:Herr;
    [by apply elem_of_nil in He|].
  eexists. split; [reflexivity|]. by apply (validation_details_field _ _ He).
Qed.

(** X4. A list request with a priority outside 1 to 5, a limit outside 1 to
    100 or a negative offset is a validation failure whose details name the
    parameter with the [query.] prefix; with every given parameter within
    bounds the request succeeds, limit defaulting to 10 and offset to 0, and
    echoes limit and offset. *)
Theorem get_tasks_validation_outcome (order_by : list Task.t → list Task.t)
    (q : ListQuery.t) (db : DB) :
  (∀ p, ListQuery.priority q = Some p → ¬ 1 ≤ p ≤ 5 →
        ∃ details, get_tasks order_by q db = ValidationFailed details ∧
                   is_Some (details !! "query.priority")) ∧
  (∀ l, ListQuery.limit q = Some l → ¬ 1 ≤ l ≤ 100 →
        ∃ details, get_tasks order_by q db = ValidationFailed details ∧
                   is_Some (details !! "query.limit")) ∧
  (∀ o, ListQuery.offset q = Some o → o < 0 →
        ∃ details, get_tasks order_by q db = ValidationFailed details ∧
                   is_Some (details !! "query.offset")) ∧
  ((∀ p, ListQuery.priority q = Some p → 1 ≤ p ≤ 5) →
   (∀ l, ListQuery.limit q = Some l → 1 ≤ l ≤ 100) →
   (∀ o, ListQuery.offset q = Some o → 0 ≤ o) →
   ∃ r, get_tasks order_by q db = Ok r ∧
        PaginatedTaskResponse.limit r = default 10 (ListQuery.limit q) ∧
        PaginatedTaskResponse.offset r = default 0 (ListQuery.offset q)).
Proof.
  split_and!.
  - intros p Hp Hbad.
    assert (∃ msg, check_priority p = Some msg) as [msg Hmsg].
    { unfold check_priority, check_range. repeat case_decide; eauto. lia. }
    apply (get_tasks_rejects order_by q db ["query"; "priority"] msg).
    unfold validate_ListQuery. rewrite Hp. simpl. rewrite Hmsg. set_solver.
  - intros l Hl Hbad.
    assert (∃ msg, check_range 1 100 "Input should be greater than or equal to 1"
                     "Input should be less than or equal to 100" l = Some msg)
      as [msg Hmsg].
    { unfold check_range. repeat case_decide; eauto. lia. }
    apply (get_tasks_rejects order_by q db ["query"; "limit"] msg).
    unfold validate_ListQuery. rewrite Hl. simpl. rewrite Hmsg. set_solver.
  - intros o Ho Hbad.
    apply (get_tasks_rejects order_by q db ["query"; "offset"]
             "Input should be greater than or equal to 0").
    unfold validate_ListQuery. rewrite Ho. simpl.
    unfold check_ge. rewrite decide_True by done. set_solver.
  - intros Hp Hl Ho. unfold get_tasks, validate_ListQuery.
    assert (ListQuery.priority q ≫= check_priority = None) as ->.
    { destruct (ListQuery.priority q) as [p|]; simpl; try done.
      specialize (Hp p eq_refl). unfold check_priority, check_range.
      by rewrite !decide_False by lia. }
    assert (ListQuery.limit q ≫=
              check_range 1 100 "Input should be greater than or equal to 1"
                "Input should be less than or equal to 100" = None) as ->.
    { destruct (ListQuery.limit q) as [l|]; simpl; try done.
      specialize (Hl l eq_refl). unfold check_range.
      by rewrite !decide_False by lia. }
    assert (ListQuery.offset q ≫=
              check_ge 0 "Input should be greater than or equal to 0" = None) as ->.
    { destruct (ListQuery.offset q) as [o|]; simpl; try done.
      specialize (Ho o eq_refl). unfold check_ge.
      by rewrite decide_False by lia. }
    simpl. eauto.
Qed.

(** ** Null in a column that is not nullable *)

(** X5. A partial update that sets [priority], [due_date] or [completed] to
    null for an existing task is refused by the store at commit, whatever
    else the body holds: such a null is not a validation failure (when the
    rest of the body is valid the request ends in the refused commit), and
    the task is left as it was. *)
Theorem update_null_required_column (clock : Clock) (task_id : Z)
    (body : TaskUpdate.t) (db : DB) (task : Task.t) :
  find_task task_id db = Some task →
  TaskUpdate.priority body = Some None ∨
  TaskUpdate.due_date body = Some None ∨
  TaskUpdate.completed body = Some None →
  update_task clock task_id body db = IntegrityError ∧
  (validate_TaskUpdate (today clock) body = [] →
   patch_task clock task_id body db = IntegrityError) ∧
  get_task task_id (step clock (PATCH_task task_id body) db) =
    Ok (TaskResponse.from_orm_with_tags task).
Proof.
  intros Hfind Hnull.
  assert (update_task clock task_id body db = IntegrityError) as Hupd.
  { unfold update_task. rewrite Hfind, set_fields_spec.
    destruct (match TaskUpdate.tags body with
              | Some (Some names) =>
                  let '(db1, tags) := get_or_create_tags db names in
                  (db1, Some tags)
              | _ => (db, Attrs.tags (Attrs.of_task task))
              end) as [db1 tags].
    unfold flush_task. simpl.
    destruct (default (Some (Task.title task)) (TaskUpdate.title body)); [|done].
    simpl. destruct Hnull as [Hn|[Hn|Hn]]; rewrite Hn; simpl; try done.
    - destruct (default (Some (Task.priority task)) (TaskUpdate.priority body));
        done.
    - destruct (default (Some (Task.priority task)) (TaskUpdate.priority body));
        [|done]. simpl.
      destruct (default (Some (Task.due_date task)) (TaskUpdate.due_date body));
        done. }
  split_and!; [done| |].
  - intros Hvalid. unfold patch_task. by rewrite Hvalid.
  - simpl. unfold patch_task.
    destruct (validate_TaskUpdate (today clock) body);
      rewrite ?Hupd; unfold get_task; by rewrite Hfind.
Qed.

Lemma update_null_required_column_witness :
  let db := step (mkClock 20000 1)
              (POST_tasks (TaskCreate.mk "A" None 3 20001 None)) empty_db in
  let body := TaskUpdate.mk None None None None (Some None) None in
  patch_task (mkClock 20000 2) 1 body db = IntegrityError.
Proof.
  intros db body.
  destruct (update_null_required_column (mkClock 20000 2) 1 body db
              (Task.mk 1 "A" None 3 20001 false false 1 1 []) eq_refl)
    as (_ & Hpatch & _).
  - right. right. reflexivity.
  - apply Hpatch. reflexivity.
Defined.

(** ** Normalization of tag names: [strip], then [lower] *)

Lemma isspace_lower_char c : Str.isspace (Str.lower_char c) = Str.isspace c.
Proof. by destruct c as [[] [] [] [] [] [] [] []]. Qed.

Lemma lower_char_idem c : Str.lower_char (Str.lower_char c) = Str.lower_char c.
Proof. by destruct c as [[] [] [] [] [] [] [] []]. Qed.

Lemma lower_idem s : Str.lower (Str.lower s) = Str.lower s.
Proof. induction s as [|c s IH]; simpl; [done|]. by rewrite lower_char_idem, IH. Qed.

Lemma lower_empty s : Str.lower s = "" ↔ s = "".
Proof. by destruct s. Qed.

Lemma lower_lstrip s : Str.lower (Str.lstrip s) = Str.lstrip (Str.lower s).
Proof.
  induction s as [|c s IH]; simpl; [done|].
  rewrite isspace_lower_char. by destruct (Str.isspace c).
Qed.

Lemma string_app_cons c (s t : string) : String c s +:+ t = String c (s +:+ t).
Proof. reflexivity. Qed.

Lemma string_app_nil_l (t : string) : "" +:+ t = t.
Proof. reflexivity. Qed.

Lemma string_app_assoc (s t u : string) : (s +:+ t) +:+ u = s +:+ t +:+ u.
Proof.
  induction s as [|c s IH]; [done|]. by rewrite !string_app_cons, IH.
Qed.

Lemma rev_app_append s t : String.rev_app s t = String.rev s +:+ t.
Proof.
  unfold String.rev. revert t. induction s as [|c s IH]; intros t; simpl; [done|].
  rewrite (IH (String c t)), (IH (String c "")).
  by rewrite string_app_assoc.
Qed.

Lemma rev_cons c s : String.rev (String c s) = String.rev s +:+ String c "".
Proof. unfold String.rev at 1. simpl. apply rev_app_append. Qed.

Lemma rev_snoc s c : String.rev (s +:+ String c "") = String c (String.rev s).
Proof.
  induction s as [|a s IH]; [done|].
  by rewrite string_app_cons, !rev_cons, IH.
Qed.

Lemma rev_involutive s : String.rev (String.rev s) = s.
Proof.
  induction s as [|c s IH]; [done|]. by rewrite rev_cons, rev_snoc, IH.
Qed.

Lemma lower_append s t : Str.lower (s +:+ t) = Str.lower s +:+ Str.lower t.
Proof.
  induction s as [|c s IH]; [done|].
  rewrite string_app_cons. simpl. by rewrite IH.
Qed.

Lemma lower_rev s : Str.lower (String.rev s) = String.rev (Str.lower s).
Proof.
  induction s as [|c s IH]; [done|]. simpl Str.lower at 2.
  by rewrite !rev_cons, lower_append, IH.
Qed.

Lemma lower_strip s : Str.lower (Str.strip s) = Str.strip (Str.lower s).
Proof.
  unfold Str.strip, Str.rstrip.
  by rewrite lower_rev, lower_lstrip, lower_rev, lower_lstrip.
Qed.

Lemma lstrip_idem s : Str.lstrip (Str.lstrip s) = Str.lstrip s.
Proof.
  induction s as [|c s IH]; simpl; [done|].
  destruct (Str.isspace c) eqn:Hc; [done|]. simpl. by rewrite Hc.
Qed.

Lemma lstrip_snoc s c :
  Str.isspace c = false →
  Str.lstrip (s +:+ String c "") = Str.lstrip s +:+ String c "".
Proof.
  intros Hc. induction s as [|a s IH].
  - rewrite string_app_nil_l. simpl. by rewrite Hc.
  - rewrite string_app_cons. simpl. by destruct (Str.isspace a).
Qed.

Lemma lstrip_rstrip_lstrip s :
  Str.lstrip (Str.rstrip (Str.lstrip s)) = Str.rstrip (Str.lstrip s).
Proof.
  assert (∀ t, match t with
               | String c _ => Str.isspace c = false
               | EmptyString => True
               end → Str.lstrip (Str.rstrip t) = Str.rstrip t) as Hkeep.
  { intros [|c t] Hc; [done|]. unfold Str.rstrip.
    rewrite rev_cons, lstrip_snoc, rev_snoc by done. simpl. by rewrite Hc. }
  apply Hkeep. induction s as [|c s IH]; simpl; [done|].
  by destruct (Str.isspace c) eqn:Hc.
Qed.

Lemma strip_idem s : Str.strip (Str.strip s) = Str.strip s.
Proof.
  unfold Str.strip. rewrite lstrip_rstrip_lstrip. unfold Str.rstrip.
  by rewrite rev_involutive, lstrip_idem.
Qed.

Lemma normalize_idem s :
  Str.lower (Str.strip (Str.lower (Str.strip s))) = Str.lower (Str.strip s).
Proof. by rewrite <- lower_strip, strip_idem, lower_idem. Qed.

(** ** The tag table *)

Lemma run_cons clock req trace db :
  run ((clock, req) :: trace) db = run trace (step clock req db).
Proof. reflexivity. Qed.

Lemma get_or_create_tags_prefix names :
  ∀ db, db_tags db `prefix_of` db_tags (get_or_create_tags db names).1.
Proof.
  induction names as [|name rest IH]; intros db; simpl; [done|].
  case_decide; [apply IH|].
  destruct (find_tag _ db) as [g|].
  - specialize (IH db). by destruct (get_or_create_tags db rest).
  - unfold add_tag.
    match goal with |- context [get_or_create_tags ?d rest] =>
      specialize (IH d); destruct (get_or_create_tags d rest) end.
    simpl in *. etransitivity; [|exact IH]. by apply prefix_app_r.
Qed.

Lemma get_or_create_tags_names (P : string → Prop) names :
  (∀ raw, Str.lower (Str.strip raw) ≠ "" → P (Str.lower (Str.strip raw))) →
  ∀ db, (∀ g, g ∈ db_tags db → P (Tag.name g)) →
        ∀ g, g ∈ db_tags (get_or_create_tags db names).1 → P (Tag.name g).
Proof.
  intros HP. induction names as [|name rest IH]; intros db Hdb; simpl; [done|].
  case_decide as Hname; [by apply IH|].
  destruct (find_tag _ db) as [g0|].
  - specialize (IH db Hdb). by destruct (get_or_create_tags db rest).
  - unfold add_tag.
    match goal with |- context [get_or_create_tags ?d rest] =>
      specialize (IH d); destruct (get_or_create_tags d rest) end.
    apply IH. simpl. intros g Hg. apply elem_of_app in Hg as [Hg|Hg]; [auto|].
    apply list_elem_of_singleton in Hg as ->. simpl. by apply HP.
Qed.

(** The tag table after a request is the one the resolver leaves for some
    list of names. *)
Lemma step_db_tags clock req db :
  ∃ names, db_tags (step clock req db) = db_tags (get_or_create_tags db names).1.
Proof.
  destruct req as [body|q|task_id|task_id body|task_id]; simpl;
    try by (exists []).
  - unfold post_tasks. destruct (validate_TaskCreate _ _); [|by exists []].
    destruct (create_task clock body db) as [[db' r]| | |] eqn:Hcreate;
      try by (exists []).
    apply create_task_Ok in Hcreate as (db1 & tags & Hrun & _ & -> & _).
    exists (default [] (TaskCreate.tags body)). by rewrite Hrun.
  - unfold patch_task. destruct (validate_TaskUpdate _ _); [|by exists []].
    destruct (update_task clock task_id body db) as [[db' r]| | |] eqn:Hupd;
      try by (exists []).
    apply update_task_Ok in Hupd
      as (task & db1 & task' & _ & -> & _ & _ & _ & _ & _ & _ & _ & _ & _ & _ & _ & Htags).
    destruct (TaskUpdate.tags body) as [[names|]|].
    + destruct Htags as (new & Hrun & _). exists names. by rewrite Hrun.
    + destruct Htags as [-> _]. by exists [].
    + destruct Htags as [-> _]. by exists [].
  - destruct (delete_task clock task_id db) as [db'| | |] eqn:Hdel;
      try by (exists []).
    unfold delete_task in Hdel. destruct (find_task task_id db); [|done].
    injection Hdel as <-. by exists [].
Qed.

(** X6. In every reachable store no two tags share a name, every tag name
    is normalized (non-empty, and unchanged by trimming and lowercasing),
    and the tags of each task are rows of the tag table with pairwise
    distinct names. *)
Theorem reachable_tags_normalized_unique (db : DB) :
  reachable db →
  NoDup (Tag.name <$> db_tags db) ∧
  (∀ g, g ∈ db_tags db →
        Tag.name g ≠ "" ∧ Str.lower (Str.strip (Tag.name g)) = Tag.name g) ∧
  (∀ x, x ∈ db_tasks db →
        Task.tags x ⊆ db_tags db ∧ NoDup (Tag.name <$> Task.tags x)).
Proof.
  intros Hreach. pose proof (reachable_wf _ Hreach) as Hwf. split_and!.
  - apply Hwf.
  - clear Hwf. destruct Hreach as [trace ->].
    assert (∀ db0, (∀ g, g ∈ db_tags db0 →
                      Tag.name g ≠ "" ∧
                      Str.lower (Str.strip (Tag.name g)) = Tag.name g) →
            ∀ g, g ∈ db_tags (run trace db0) →
                 Tag.name g ≠ "" ∧
                 Str.lower (Str.strip (Tag.name g)) = Tag.name g) as Hrun.
    { induction trace as [|[clock req] trace IH]; intros db0 H0; [done|].
      rewrite run_cons. apply IH.
      destruct (step_db_tags clock req db0) as [names Heq]. rewrite Heq.
      apply (get_or_create_tags_names
               (λ n, n ≠ "" ∧ Str.lower (Str.strip n) = n)); [|done].
      intros raw Hraw. split; [done|apply normalize_idem]. }
    apply Hrun. intros g Hg. by apply elem_of_nil in Hg.
  - intros x Hx. destruct (wf_task_tags _ Hwf x Hx) as [Hnd Hsub].
    split; [done|]. apply NoDup_fmap_2_strong; [|by eapply NoDup_fmap_1].
    intros g g' Hg Hg' Hname.
    eapply NoDup_fmap_eq; [apply (wf_tag_names _ Hwf)|auto..].
Qed.

Lemma reachable_tags_normalized_unique_witness :
  let c := mkClock 20000 in
  let db := run [(c 1, POST_tasks (TaskCreate.mk "A" None 3 20001
                                     (Some ["Work"; " urgent "; "  "])));
                 (c 2, PATCH_task 1 (TaskUpdate.mk None None None None None
                                       (Some (Some ["WORK"; "Home"]))))]
              empty_db in
  Tag.name <$> db_tags db = ["work"; "urgent"; "home"] ∧
  NoDup (Tag.name <$> db_tags db).
Proof.
  intros c db. split; [reflexivity|].
  apply (reachable_tags_normalized_unique db). by eexists.
Defined.

(** X7. The store only grows: along any run of requests from a store that
    meets its key constraints, the rows of the tag table stay as they are
    and in place (tags are never deleted or renamed), and so do the id and
    creation time of every task (tasks are never removed, renumbered or
    re-dated). *)
Theorem store_append_only (trace : list (Clock * Request)) (db : DB) :
  db_wf db →
  db_tags db `prefix_of` db_tags (run trace db) ∧
  ((λ x, (Task.id x, Task.created_at x)) <$> db_tasks db) `prefix_of`
    ((λ x, (Task.id x, Task.created_at x)) <$> db_tasks (run trace db)).
Proof.
  revert db. induction trace as [|[clock req] trace IH]; intros db Hwf; [done|].
  rewrite run_cons.
  destruct (IH (step clock req db) (step_wf clock req db Hwf)) as [IHtags IHtasks].
  split.
  - etransitivity; [|exact IHtags].
    destruct (step_db_tags clock req db) as [names Heq]. rewrite Heq.
    apply get_or_create_tags_prefix.
  - etransitivity; [|exact IHtasks]. clear IH IHtags IHtasks.
    assert (∀ row task db1,
              db_tasks db1 = db_tasks db →
              find_task (Task.id row) db = Some task →
              Task.created_at row = Task.created_at task →
              (λ x, (Task.id x, Task.created_at x)) <$>
                db_tasks (replace_task row db1) =
              (λ x, (Task.id x, Task.created_at x)) <$> db_tasks db) as Hsame.
    { intros row task db1 Ht Hfind Hcr. unfold replace_task. simpl db_tasks.
      rewrite Ht, <- list_fmap_compose.
      apply find_task_Some in Hfind as (Hin & Hid & _).
      apply list_fmap_ext. intros i x Hx. simpl.
      case_decide as Hxid; [|done].
      assert (x = task) as ->.
      { eapply NoDup_fmap_eq; [apply (wf_task_ids _ Hwf)| |done|congruence].
        by eapply list_elem_of_lookup_2. }
      by rewrite <- Hxid, Hcr. }
    destruct req as [body|q|task_id|task_id body|task_id]; unfold step; try done.
    + destruct (post_tasks clock body db) as [[db' r]| | |] eqn:Hpost; try done.
      unfold post_tasks in Hpost. destruct (validate_TaskCreate _ _); [|done].
      apply create_task_Ok in Hpost as (db1 & tags & Hrun & _ & -> & _).
      apply get_or_create_tags_spec in Hrun as (Ht & _).
      unfold insert_task. simpl db_tasks. rewrite Ht, fmap_app.
      by apply prefix_app_r.
    + destruct (patch_task clock task_id body db) as [[db' r]| | |] eqn:Hpatch;
        try done.
      apply patch_task_Ok, update_task_Ok in Hpatch
        as (task & db1 & task' & Hfind & -> & _ & Ht & _ & Hid & _ & Hcr & _).
      pose proof Hfind as (_ & Htid & _)%find_task_Some.
      rewrite (Hsame task' task db1); [done|done| |done]. by rewrite Hid, Htid.
    + destruct (delete_task clock task_id db) as [db'| | |] eqn:Hdel; try done.
      unfold delete_task in Hdel.
      destruct (find_task task_id db) as [task|] eqn:Hfind; [|done].
      injection Hdel as <-.
      pose proof Hfind as (_ & Htid & _)%find_task_Some.
      rewrite (Hsame _ task db); [done|done| |done]. simpl. by rewrite Htid.
Qed.

Lemma store_append_only_witness :
  let c := mkClock 20000 in
  let db := run [(c 1, POST_tasks (TaskCreate.mk "A" None 3 20001 (Some ["work"])));
                 (c 2, POST_tasks (TaskCreate.mk "B" None 3 20001 None))] empty_db in
  let trace := [(c 3, DELETE_task 1);
                (c 4, PATCH_task 2 (TaskUpdate.mk (Some (Some "C")) None None None
                                      None (Some (Some []))));
                (c 5, POST_tasks (TaskCreate.mk "D" None 3 20001 (Some ["home"])))] in
  db_tags db `prefix_of` db_tags (run trace db) ∧
  [(1, 1); (2, 2)] `prefix_of`
    ((λ x, (Task.id x, Task.created_at x)) <$> db_tasks (run trace db)).
Proof.
  intros c db trace.
  apply (store_append_only trace db). apply reachable_wf. by eexists.
Defined.

(** ** Resolving names that are already in the tag table *)

Lemma find_tag_known g db :
  NoDup (Tag.name <$> db_tags db) → g ∈ db_tags db →
  find_tag (Tag.name g) db = Some g.
Proof.
  intros Hnd Hg. unfold find_tag.
  destruct (filter (λ g0, Tag.name g0 = Tag.name g) (db_tags db)) as [|g' l] eqn:Hf.
  - exfalso. by eapply (filter_nil_not_elem_of _ _ g Hf).
  - assert (g' ∈ filter (λ g0, Tag.name g0 = Tag.name g) (db_tags db)) as Hg'
      by (rewrite Hf; left).
    apply list_elem_of_filter in Hg' as [Hname Hg'].
    simpl. f_equal. by eapply NoDup_fmap_eq.
Qed.

Lemma get_or_create_tags_known names :
  ∀ db tags,
    NoDup (Tag.name <$> db_tags db) → tags ⊆ db_tags db →
    Tag.name <$> tags = normalize_names names →
    get_or_create_tags db names = (db, tags).
Proof.
  induction names as [|name rest IH]; intros db tags Hnd Hsub Hnames.
  - apply fmap_nil_inv in Hnames as ->. done.
  - simpl. unfold normalize_names in Hnames. rewrite fmap_cons in Hnames.
    case_decide as Hname.
    + rewrite filter_cons_False in Hnames by tauto. by apply IH.
    + rewrite filter_cons_True in Hnames by done.
      destruct tags as [|g tags]; [done|]. rewrite fmap_cons in Hnames.
      injection Hnames as Hg Hrest.
      rewrite <- Hg, find_tag_known; [|done|apply Hsub; by left].
      rewrite (IH db tags); [done|done| |done].
      intros g' Hg'. apply Hsub. by right.
Qed.

(** X8. Resolving tag names is repeatable: once a list of names has been
    resolved against a store that meets its key constraints, resolving the
    same list again creates no tag, leaves the store as it is and returns
    the same tags; and every name of the list, normalized, is then found by
    name as the tag that was returned for it. *)
Theorem get_or_create_tags_again (names : list string) (db db1 : DB)
    (tags : list Tag.t) :
  db_wf db →
  get_or_create_tags db names = (db1, tags) →
  get_or_create_tags db1 names = (db1, tags) ∧
  (∀ g, g ∈ tags → find_tag (Tag.name g) db1 = Some g) ∧
  length tags = length (normalize_names names).
Proof.
  intros Hwf Hrun.
  pose proof (get_or_create_tags_wf _ _ _ _ Hwf Hrun) as Hwf1.
  apply get_or_create_tags_spec in Hrun as (_ & _ & Hnames & _ & Hsub & _).
  split_and!.
  - apply get_or_create_tags_known; [apply Hwf1|done..].
  - intros g Hg. apply find_tag_known; [apply Hwf1|by apply Hsub].
  - by rewrite <- Hnames, length_fmap.
Qed.

Lemma get_or_create_tags_again_witness :
  let names := ["Work"; " "; "urgent"; "WORK "] in
  let r := get_or_create_tags empty_db names in
  get_or_create_tags r.1 names = r ∧ length r.2 = 3%nat ∧
  length (db_tags r.1) = 2%nat.
Proof.
  intros names r.
  destruct (get_or_create_tags_again names empty_db r.1 r.2 db_wf_empty eq_refl)
    as (Hagain & _ & Hlen).
  split; [exact Hagain|]. split; [exact Hlen|reflexivity].
Defined.

(** ** Requests leave the other tasks alone *)

Lemma find_task_db_tasks task_id db db1 :
  db_tasks db1 = db_tasks db → find_task task_id db1 = find_task task_id db.
Proof. unfold find_task. by intros ->. Qed.

Lemma find_task_replace_other row db task_id :
  task_id ≠ Task.id row →
  find_task task_id (replace_task row db) = find_task task_id db.
Proof.
  intros Hne. unfold find_task, replace_task. simpl db_tasks. f_equal.
  induction (db_tasks db) as [|x l IH]; [done|]. rewrite fmap_cons.
  destruct (decide (Task.id x = Task.id row)) as [Hid|Hid].
  - rewrite !filter_cons_False by (intros [? _]; congruence). exact IH.
  - destruct (decide (Task.id x = task_id ∧ Task.is_deleted x = false)).
    + rewrite !filter_cons_True by done. by rewrite IH.
    + rewrite !filter_cons_False by done. exact IH.
Qed.

(** X9. A request changes what a fetch returns only for the task it
    addresses: after a partial update or a delete of one id, and after a
    create (which takes the next id of the sequence), [get_task] on any
    other id returns what it returned before; reads change nothing. *)
Theorem get_task_unaffected_by_other_requests (clock : Clock) (req : Request)
    (db : DB) (task_id : Z) :
  match req with
  | POST_tasks _ => task_id ≠ next_task_id db
  | PATCH_task i _ | DELETE_task i => task_id ≠ i
  | GET_tasks _ | GET_task _ => True
  end →
  get_task task_id (step clock req db) = get_task task_id db.
Proof.
  intros Hother. unfold get_task.
  assert (find_task task_id (step clock req db) = find_task task_id db) as ->;
    [|done].
  destruct req as [body|q|i|i body|i]; unfold step; try done.
  - destruct (post_tasks clock body db) as [[db' r]| | |] eqn:Hpost; try done.
    unfold post_tasks in Hpost. destruct (validate_TaskCreate _ _); [|done].
    apply create_task_Ok in Hpost as (db1 & tags & Hrun & _ & -> & _).
    apply get_or_create_tags_spec in Hrun as (Ht & Hn & _).
    unfold find_task, insert_task. simpl db_tasks.
    rewrite filter_app, Ht, filter_cons_False, filter_nil, app_nil_r; [done|].
    simpl. intros [Hid _]. congruence.
  - destruct (patch_task clock i body db) as [[db' r]| | |] eqn:Hpatch; try done.
    apply patch_task_Ok, update_task_Ok in Hpatch
      as (task & db1 & task' & Hfind & -> & _ & Ht & _ & Hid & _).
    apply find_task_Some in Hfind as (_ & Htid & _).
    rewrite find_task_replace_other by congruence.
    by apply find_task_db_tasks.
  - destruct (delete_task clock i db) as [db'| | |] eqn:Hdel; try done.
    unfold delete_task in Hdel.
    destruct (find_task i db) as [task|] eqn:Hfind; [|done].
    injection Hdel as <-. apply find_task_Some in Hfind as (_ & Htid & _).
    apply find_task_replace_other. simpl. congruence.
Qed.

Lemma get_task_unaffected_by_other_requests_witness :
  let c := mkClock 20000 in
  let db := run [(c 1, POST_tasks (TaskCreate.mk "A" None 3 20001 (Some ["work"])));
                 (c 2, POST_tasks (TaskCreate.mk "B" None 3 20001 None))] empty_db in
  get_task 1 (step (c 3) (DELETE_task 2) db) = get_task 1 db ∧
  get_task 1 (step (c 3) (POST_tasks (TaskCreate.mk "C" None 1 20000 None)) db) =
    get_task 1 db.
Proof.
  intros c db. split.
  - apply (get_task_unaffected_by_other_requests (c 3) (DELETE_task 2) db 1).
    simpl. lia.
  - apply (get_task_unaffected_by_other_requests (c 3)
             (POST_tasks (TaskCreate.mk "C" None 1 20000 None)) db 1).
    vm_compute. discriminate.
Defined.

(** ** One guard for fetch, update and delete *)

(** X10. Fetch, partial update and delete share one notion of a missing
    task: each is not-found exactly when no row with that id is live (none
    exists, or it is soft-deleted); a delete of a live task always
    succeeds, and a fetch succeeds exactly when a delete would. *)
Theorem not_found_agrees (clock : Clock) (task_id : Z) (body : TaskUpdate.t)
    (db : DB) :
  (get_task task_id db = NotFound task_id ↔
     ∀ x, x ∈ db_tasks db → Task.id x = task_id → Task.is_deleted x = true) ∧
  (get_task task_id db = NotFound task_id ↔
     delete_task clock task_id db = NotFound task_id) ∧
  (get_task task_id db = NotFound task_id ↔
     update_task clock task_id body db = NotFound task_id) ∧
  ((∃ r, get_task task_id db = Ok r) ↔
     (∃ db', delete_task clock task_id db = Ok db')).
Proof.
  unfold get_task, delete_task, update_task.
  destruct (find_task task_id db) as [task|] eqn:Hfind.
  - pose proof Hfind as (Hin & Hid & Hlive)%find_task_Some. split_and!.
    + split; [done|]. intros Hall. specialize (Hall task Hin Hid). congruence.
    + done.
    + split; [done|]. destruct (foldl set_field _ _) as [db1 a].
      by destruct (flush_task _ _ _).
    + split; eauto.
  - split_and!; try done.
    + split; [|done]. intros _ x Hx Hid.
      destruct (Task.is_deleted x) eqn:Hdel; [done|]. exfalso.
      unfold find_task in Hfind. apply head_None in Hfind.
      by eapply (filter_nil_not_elem_of _ _ x Hfind).
    + split; intros [? ?]; done.
Qed.

(** X11. A soft delete keeps the row: after a successful delete the store
    has as many task rows as before, the tag table and both id sequences are
    untouched, and the row of the deleted task is still there with its
    title, description, priority, due date, completed flag, creation time
    and tags as they were, its deleted flag set and its update time the
    request's. *)
Theorem delete_task_keeps_row (clock : Clock) (task_id : Z) (db db' : DB)
    (task : Task.t) :
  find_task task_id db = Some task →
  delete_task clock task_id db = Ok db' →
  Task.mk (Task.id task) (Task.title task) (Task.description task)
          (Task.priority task) (Task.due_date task) (Task.completed task)
          true (Task.created_at task) (utc_now clock) (Task.tags task)
    ∈ db_tasks db' ∧
  length (db_tasks db') = length (db_tasks db) ∧
  Task.id <$> db_tasks db' = Task.id <$> db_tasks db ∧
  db_tags db' = db_tags db ∧
  next_task_id db' = next_task_id db ∧
  next_tag_id db' = next_tag_id db.
Proof.
  unfold delete_task. intros Hfind Hdel. rewrite Hfind in Hdel.
  injection Hdel as <-. apply find_task_Some in Hfind as (Hin & _ & _).
  split_and!; try done.
  - simpl. apply list_elem_of_fmap. exists task. split; [|done].
    by rewrite decide_True.
  - simpl. by rewrite length_fmap.
  - apply replace_task_ids.
Qed.

Lemma delete_task_keeps_row_witness :
  let db := step (mkClock 20000 1)
              (POST_tasks (TaskCreate.mk "A" (Some "B") 3 20001 (Some ["work"])))
              empty_db in
  Task.mk 1 "A" (Some "B") 3 20001 false true 1 7 [Tag.mk 1 "work"]
    ∈ db_tasks (step (mkClock 20000 7) (DELETE_task 1) db).
Proof.
  intros db.
  apply (delete_task_keeps_row (mkClock 20000 7) 1 db _
           (Task.mk 1 "A" (Some "B") 3 20001 false false 1 1 [Tag.mk 1 "work"])
           eq_refl eq_refl).
Defined.

(** ** Updates that change nothing *)

Lemma replace_task_same task db :
  db_wf db → task ∈ db_tasks db → replace_task task db = db.
Proof.
  intros Hwf Hin. unfold replace_task. destruct db as [tasks tags n m].
  simpl in *. f_equal. rewrite <- (list_fmap_id tasks) at 2.
  apply list_fmap_ext. intros i x Hx. simpl. case_decide as Hid; [|done].
  symmetry. eapply NoDup_fmap_eq; [apply (wf_task_ids _ Hwf)| |done..].
  by eapply list_elem_of_lookup_2.
Qed.

(** An update whose body agrees with the task on every column it names, and
    whose tag names the store knows already, rewrites at most the task's
    collection of tags. *)
Lemma update_task_agreeing clock task_id body db task :
  db_wf db →
  find_task task_id db = Some task →
  default (Some (Task.title task)) (TaskUpdate.title body) = Some (Task.title task) →
  default (Task.description task) (TaskUpdate.description body) =
    Task.description task →
  default (Some (Task.priority task)) (TaskUpdate.priority body) =
    Some (Task.priority task) →
  default (Some (Task.due_date task)) (TaskUpdate.due_date body) =
    Some (Task.due_date task) →
  default (Some (Task.completed task)) (TaskUpdate.completed body) =
    Some (Task.completed task) →
  (∀ names, TaskUpdate.tags body = Some (Some names) →
     ∃ new, new ⊆ db_tags db ∧ Tag.name <$> new = normalize_names names) →
  ∃ tags',
    match TaskUpdate.tags body with
    | Some (Some names) =>
        ∃ new, new ⊆ db_tags db ∧ Tag.name <$> new = normalize_names names ∧
               tags' = flush_tags clock new
    | _ => tags' = Task.tags task
    end ∧
    let task' :=
      Task.mk (Task.id task) (Task.title task) (Task.description task)
              (Task.priority task) (Task.due_date task) (Task.completed task)
              (Task.is_deleted task) (Task.created_at task)
              (Task.updated_at task) tags' in
    update_task clock task_id body db =
      Ok (replace_task task' db, TaskResponse.from_orm_with_tags task').
Proof.
  intros Hwf Hfind Ht Hd Hp Hdu Hc Htags.
  unfold update_task. rewrite Hfind, set_fields_spec. simpl Attrs.title.
  simpl Attrs.description. simpl Attrs.priority. simpl Attrs.due_date.
  simpl Attrs.completed. simpl Attrs.tags. rewrite Ht, Hd, Hp, Hdu, Hc.
  destruct (TaskUpdate.tags body) as [[names|]|].
  - destruct (Htags names eq_refl) as (new & Hsub & Hnames).
    rewrite (get_or_create_tags_known names db new); [|apply Hwf|done..].
    exists (flush_tags clock new). split; [by exists new|].
    unfold flush_task. simpl. by rewrite decide_True.
  - exists (Task.tags task). split; [done|].
    unfold flush_task. simpl. by rewrite decide_True.
  - exists (Task.tags task). split; [done|].
    unfold flush_task. simpl. by rewrite decide_True.
Qed.

(** With the tags left alone such an update changes nothing. *)
Lemma update_task_agreeing_noop clock task_id body db task :
  db_wf db →
  find_task task_id db = Some task →
  default (Some (Task.title task)) (TaskUpdate.title body) = Some (Task.title task) →
  default (Task.description task) (TaskUpdate.description body) =
    Task.description task →
  default (Some (Task.priority task)) (TaskUpdate.priority body) =
    Some (Task.priority task) →
  default (Some (Task.due_date task)) (TaskUpdate.due_date body) =
    Some (Task.due_date task) →
  default (Some (Task.completed task)) (TaskUpdate.completed body) =
    Some (Task.completed task) →
  (∀ names, TaskUpdate.tags body ≠ Some (Some names)) →
  update_task clock task_id body db =
    Ok (db, TaskResponse.from_orm_with_tags task).
Proof.
  intros Hwf Hfind Ht Hd Hp Hdu Hc Htags.
  destruct (update_task_agreeing clock task_id body db task)
    as (tags' & Hcase & Hupd); try done.
  { intros names Hnames. by destruct (Htags names). }
  assert (tags' = Task.tags task) as ->.
  { destruct (TaskUpdate.tags body) as [[names|]|]; [|done..].
    by destruct (Htags names). }
  rewrite Hupd. pose proof Hfind as (Hin & _ & _)%find_task_Some.
  assert (∀ x : Task.t,
            Task.mk (Task.id x) (Task.title x) (Task.description x)
              (Task.priority x) (Task.due_date x) (Task.completed x)
              (Task.is_deleted x) (Task.created_at x) (Task.updated_at x)
              (Task.tags x) = x) as -> by (by intros []).
  by rewrite replace_task_same.
Qed.

(** X12. A partial update is idempotent up to the order of the tags: on a
    store that meets its key constraints, repeating an update that
    succeeded, while the body still passes validation (its due date has not
    become a past date), succeeds again and returns the same task -- every
    field as the first update returned it, the update time included, and the
    same tags, in the order the store hands them back.  No tag is created,
    no other task is touched, and when the body carries no tag list the
    store and the response are exactly those of the first update. *)
Theorem patch_task_idempotent (c1 c2 : Clock) (task_id : Z)
    (body : TaskUpdate.t) (db db1 : DB) (r : TaskResponse.t) :
  db_wf db →
  patch_task c1 task_id body db = Ok (db1, r) →
  validate_TaskUpdate (today c2) body = [] →
  ∃ db2 r2,
    patch_task c2 task_id body db1 = Ok (db2, r2) ∧
    r2 = TaskResponse.mk (TaskResponse.id r) (TaskResponse.title r)
           (TaskResponse.description r) (TaskResponse.priority r)
           (TaskResponse.due_date r) (TaskResponse.completed r)
           (TaskResponse.tags r2)
           (TaskResponse.created_at r) (TaskResponse.updated_at r) ∧
    TaskResponse.tags r2 ≡ₚ TaskResponse.tags r ∧
    db_tags db2 = db_tags db1 ∧
    Task.id <$> db_tasks db2 = Task.id <$> db_tasks db1 ∧
    (∀ y, y ∈ db_tasks db1 → Task.id y ≠ task_id → y ∈ db_tasks db2) ∧
    ((∀ names, TaskUpdate.tags body ≠ Some (Some names)) →
     db2 = db1 ∧ r2 = r).
Proof.
  intros Hwf Hpatch Hvalid. apply patch_task_Ok in Hpatch.
  pose proof (update_task_wf _ _ _ _ _ _ Hwf Hpatch) as Hwf1.
  apply update_task_Ok in Hpatch
    as (task & dbm & task1 & Hfind & Hdb1 & -> & Ht & _ & Hid & Hdel & _
        & Htitle & Hdesc & Hprio & Hdue & Hcomp & Htags).
  pose proof Hfind as (_ & Htid & Hlive)%find_task_Some.
  assert (find_task task_id db1 = Some task1) as Hfind1.
  { rewrite Hdb1, <- Htid, <- Hid. apply (find_task_replace _ _ task); [|congruence].
    unfold find_task. rewrite Ht, Hid, Htid. exact Hfind. }
  destruct (update_task_agreeing c2 task_id body db1 task1)
    as (tags2 & Hcase & Hagain); try done.
  { destruct (TaskUpdate.title body); simpl in *; congruence. }
  { destruct (TaskUpdate.description body); simpl in *; congruence. }
  { destruct (TaskUpdate.priority body); simpl in *; congruence. }
  { destruct (TaskUpdate.due_date body); simpl in *; congruence. }
  { destruct (TaskUpdate.completed body); simpl in *; congruence. }
  { intros names Hnames. rewrite Hnames in Htags.
    destruct Htags as (new & Hrun & Hflush). exists new.
    apply get_or_create_tags_spec in Hrun as (_ & _ & Hn & _ & Hsub & _).
    rewrite Hdb1. by split. }
  cbv zeta in Hagain.
  assert (tags2 ≡ₚ Task.tags task1) as Hperm.
  { destruct (TaskUpdate.tags body) as [[names|]|]; [|by rewrite Hcase..].
    destruct Hcase as (new2 & Hsub2 & Hnames2 & ->).
    destruct Htags as (new & Hrun & ->).
    apply get_or_create_tags_spec in Hrun as (_ & _ & Hn & _ & Hsub & _).
    assert (new2 = new) as ->.
    { assert (get_or_create_tags db1 names = (db1, new2)) as H2
        by (apply get_or_create_tags_known; [apply Hwf1|done..]).
      assert (get_or_create_tags db1 names = (db1, new)) as H1.
      { apply get_or_create_tags_known; [apply Hwf1| |done].
        by rewrite Hdb1. }
      congruence. }
    by rewrite !flush_tags_Permutation. }
  eexists _, _. split; [unfold patch_task; rewrite Hvalid; exact Hagain|].
  split_and!.
  - done.
  - simpl. by rewrite Hperm.
  - done.
  - apply replace_task_ids.
  - intros y Hy Hne. apply replace_task_keeps; [done|]. simpl. congruence.
  - intros Hnotags.
    assert (tags2 = Task.tags task1) as ->.
    { destruct (TaskUpdate.tags body) as [[names|]|]; [|done..].
      by destruct (Hnotags names). }
    assert (∀ x : Task.t,
              Task.mk (Task.id x) (Task.title x) (Task.description x)
                (Task.priority x) (Task.due_date x) (Task.completed x)
                (Task.is_deleted x) (Task.created_at x) (Task.updated_at x)
                (Task.tags x) = x) as -> by (by intros []).
    split; [|done]. apply replace_task_same; [done|].
    by apply find_task_Some in Hfind1 as (? & _).
Qed.

Lemma patch_task_idempotent_witness :
  let c1 := Build_Clock 20000 1 2 Tag.id in
  let c2 := Build_Clock 20000 5 6 (λ g, - Tag.id g) in
  let c9 := Build_Clock 20001 9 9 Tag.id in
  let db := step c1
              (POST_tasks (TaskCreate.mk "A" None 3 20001 (Some ["old"]))) empty_db in
  let body := TaskUpdate.mk (Some (Some "B")) None None None (Some (Some true))
                (Some (Some ["new"; "old"; " NEW "])) in
  ∃ db1 r db2 r2,
    patch_task c2 1 body db = Ok (db1, r) ∧
    patch_task c9 1 body db1 = Ok (db2, r2) ∧
    TaskResponse.tags r = ["new"; "old"] ∧
    TaskResponse.tags r2 ≡ₚ ["new"; "old"] ∧
    TaskResponse.updated_at r2 = 5.
Proof.
  intros c1 c2 c9 db body.
  assert (db_wf db) as Hwf.
  { apply reachable_wf.
    by exists [(c1, POST_tasks (TaskCreate.mk "A" None 3 20001 (Some ["old"])))]. }
  destruct (patch_task_idempotent c2 c9 1 body db _ _ Hwf eq_refl eq_refl)
    as (db2 & r2 & Hagain & Hr2 & Hperm & _).
  eexists _, _, db2, r2. split; [reflexivity|]. split; [exact Hagain|].
  split; [reflexivity|]. split; [exact Hperm|]. by rewrite Hr2.
Defined.

(** X13. A partial update that names no field, or names fields only with
    the values the task already has (tags unset or null), changes nothing:
    on a store that meets its key constraints it succeeds, returns the task
    as a fetch does, and leaves the store as it was, the update time
    included. *)
Theorem update_task_current_values_noop (clock : Clock) (task_id : Z)
    (body : TaskUpdate.t) (db : DB) (task : Task.t) :
  db_wf db →
  find_task task_id db = Some task →
  (∀ v, TaskUpdate.title body = Some v → v = Some (Task.title task)) →
  (∀ v, TaskUpdate.description body = Some v → v = Task.description task) →
  (∀ v, TaskUpdate.priority body = Some v → v = Some (Task.priority task)) →
  (∀ v, TaskUpdate.due_date body = Some v → v = Some (Task.due_date task)) →
  (∀ v, TaskUpdate.completed body = Some v → v = Some (Task.completed task)) →
  (∀ names, TaskUpdate.tags body ≠ Some (Some names)) →
  update_task clock task_id body db =
    Ok (db, TaskResponse.from_orm_with_tags task) ∧
  get_task task_id db = Ok (TaskResponse.from_orm_with_tags task) ∧
  patch_task clock task_id (TaskUpdate.mk None None None None None None) db =
    Ok (db, TaskResponse.from_orm_with_tags task).
Proof.
  intros Hwf Hfind Ht Hd Hp Hdu Hc Htags. split_and!.
  - apply update_task_agreeing_noop; try done.
    + destruct (TaskUpdate.title body) as [v|]; [|done]. by rewrite (Ht v).
    + destruct (TaskUpdate.description body) as [v|]; [|done]. by rewrite (Hd v).
    + destruct (TaskUpdate.priority body) as [v|]; [|done]. by rewrite (Hp v).
    + destruct (TaskUpdate.due_date body) as [v|]; [|done]. by rewrite (Hdu v).
    + destruct (TaskUpdate.completed body) as [v|]; [|done]. by rewrite (Hc v).
  - unfold get_task. by rewrite Hfind.
  - unfold patch_task. simpl. by apply update_task_agreeing_noop.
Qed.

Lemma update_task_current_values_noop_witness :
  let c := mkClock 20000 in
  let db := step (c 1)
              (POST_tasks (TaskCreate.mk "A" (Some "B") 3 20001 (Some ["old"])))
              empty_db in
  let body := TaskUpdate.mk (Some (Some "A")) None (Some (Some 3)) None None
                (Some None) in
  ∃ r, update_task (c 5) 1 body db = Ok (db, r) ∧
       patch_task (c 5) 1 (TaskUpdate.mk None None None None None None) db =
         Ok (db, r).
Proof.
  intros c db body.
  assert (db_wf db) as Hwf.
  { apply reachable_wf.
    by exists [(c 1, POST_tasks (TaskCreate.mk "A" (Some "B") 3 20001
                                   (Some ["old"])))]. }
  destruct (update_task_current_values_noop (c 5) 1 body db
              (Task.mk 1 "A" (Some "B") 3 20001 false false 1 1 [Tag.mk 1 "old"])
              Hwf eq_refl) as (Hupd & _ & Hempty).
  - by intros v [= <-].
  - by intros v [=].
  - by intros v [= <-].
  - by intros v [=].
  - by intros v [=].
  - by intros names [=].
  - eexists. split; [exact Hupd|exact Hempty].
Defined.

(** ** The update time *)

(** X14. After a successful partial update the creation time is what it
    was, and the update time is the request's time when the update changed
    the title, description, priority, due date or completed flag, and what
    it was otherwise: replacing the tags alone does not touch it. *)
Theorem update_task_updated_at (clock : Clock) (task_id : Z)
    (body : TaskUpdate.t) (db db' : DB) (task : Task.t) (r : TaskResponse.t) :
  find_task task_id db = Some task →
  update_task clock task_id body db = Ok (db', r) →
  TaskResponse.created_at r = Task.created_at task ∧
  TaskResponse.updated_at r =
    (if decide ((TaskResponse.title r, TaskResponse.description r,
                 TaskResponse.priority r, TaskResponse.due_date r,
                 TaskResponse.completed r) =
                (Task.title task, Task.description task, Task.priority task,
                 Task.due_date task, Task.completed task))
     then Task.updated_at task else utc_now clock).
Proof.
  unfold update_task. intros Hfind Hupd. rewrite Hfind, set_fields_spec in Hupd.
  destruct (match TaskUpdate.tags body with
            | Some (Some names) =>
                let '(db1, tags) := get_or_create_tags db names in
                (db1, Some tags)
            | _ => (db, Attrs.tags (Attrs.of_task task))
            end) as [db1 tags].
  destruct (flush_task _ _ _) as [task'|] eqn:Hflush; [|done].
  injection Hupd as <- <-.
  unfold flush_task in Hflush. simpl in Hflush.
  destruct (default (Some (Task.title task)) (TaskUpdate.title body))
    as [title|]; [|done].
  destruct (default (Some (Task.priority task)) (TaskUpdate.priority body))
    as [priority|]; [|done].
  destruct (default (Some (Task.due_date task)) (TaskUpdate.due_date body))
    as [due_date|]; [|done].
  destruct (default (Some (Task.completed task)) (TaskUpdate.completed body))
    as [completed|]; [|done].
  simpl in Hflush. injection Hflush as <-. simpl. split; [done|].
  repeat case_decide; done.
Qed.

Lemma update_task_updated_at_witness :
  let c := mkClock 20000 in
  let db := step (c 1)
              (POST_tasks (TaskCreate.mk "A" None 3 20001 (Some ["old"]))) empty_db in
  let tags_only := TaskUpdate.mk None None None None None (Some (Some ["new"])) in
  let title := TaskUpdate.mk (Some (Some "B")) None None None None None in
  (∃ db' r, update_task (c 5) 1 tags_only db = Ok (db', r) ∧
            TaskResponse.updated_at r = 1) ∧
  (∃ db' r, update_task (c 5) 1 title db = Ok (db', r) ∧
            TaskResponse.updated_at r = 5).
Proof.
  intros c db tags_only title. split; eexists _, _; (split; [reflexivity|]).
  - apply (update_task_updated_at (c 5) 1 tags_only db _ _ _ eq_refl eq_refl).
  - apply (update_task_updated_at (c 5) 1 title db _ _ _ eq_refl eq_refl).
Defined.

(** ** What a created task looks like *)

(** X15. A create that succeeds on a store that meets its key constraints
    takes the next id of the sequence, which no task has; the task starts
    not completed, with the request's title, description, priority and due
    date; its creation time is the first reading of the clock and its
    update time the second; its tags are the distinct normalized non-empty
    names of the request, none twice, in the order the store hands them
    back; a fetch of the new id returns the response of the create, and the
    unfiltered listing counts one task more. *)
Theorem create_task_roundtrip (clock : Clock) (body : TaskCreate.t)
    (db db' : DB) (r : TaskResponse.t) :
  db_wf db →
  post_tasks clock body db = Ok (db', r) →
  get_task (TaskResponse.id r) db' = Ok r ∧
  TaskResponse.id r = next_task_id db ∧
  (∀ x, x ∈ db_tasks db → Task.id x ≠ TaskResponse.id r) ∧
  r = TaskResponse.mk (next_task_id db) (TaskCreate.title body)
        (TaskCreate.description body) (TaskCreate.priority body)
        (TaskCreate.due_date body) false
        (TaskResponse.tags r)
        (utc_now clock) (utc_now_2 clock) ∧
  TaskResponse.tags r ≡ₚ
    remove_dups (normalize_names (default [] (TaskCreate.tags body))) ∧
  NoDup (TaskResponse.tags r) ∧
  length (list_query None None None db') =
    S (length (list_query None None None db)).
Proof.
  intros Hwf Hpost.
  assert (create_task clock body db = Ok (db', r)) as Hcreate.
  { unfold post_tasks in Hpost. by destruct (validate_TaskCreate _ _). }
  apply create_task_Ok in Hcreate as (db1 & tags & Hrun & _ & -> & ->).
  pose proof (get_or_create_tags_wf _ _ _ _ Hwf Hrun) as Hwf1.
  apply get_or_create_tags_spec in Hrun as (Ht & Hn & Hnames & _ & Hsub & _).
  destruct (flushed_tag_names clock tags (db_tags db1) (wf_tag_names _ Hwf1) Hsub)
    as (Hperm & Hnd & _).
  split_and!.
  - unfold get_task. simpl TaskResponse.id.
    by rewrite (find_task_inserted (Task.mk (next_task_id db1) _ _ _ _ _ _ _ _ _)).
  - done.
  - intros x Hx. simpl. rewrite Hn. apply (wf_task_fresh _ Hwf) in Hx. lia.
  - unfold TaskResponse.from_orm_with_tags. simpl. by rewrite Hn.
  - simpl. by rewrite Hperm, Hnames.
  - done.
  - unfold list_query, insert_task. simpl db_tasks.
    rewrite filter_app, Ht, filter_cons_True, filter_nil by done.
    rewrite length_app. simpl. lia.
Qed.

Lemma create_task_roundtrip_witness :
  let clock := Build_Clock 20000 4 5 (λ g, - Tag.id g) in
  let body := TaskCreate.mk "A" (Some "B") 5 20000
                (Some ["Work"; ""; " x "; "WORK"]) in
  ∃ db', post_tasks clock body empty_db =
           Ok (db', TaskResponse.mk 1 "A" (Some "B") 5 20000 false
                      ["x"; "work"] 4 5) ∧
         get_task 1 db' =
           Ok (TaskResponse.mk 1 "A" (Some "B") 5 20000 false ["x"; "work"] 4 5).
Proof.
  intros clock body. eexists. split; [reflexivity|].
  apply (create_task_roundtrip clock body empty_db _ _ db_wf_empty eq_refl).
Defined.

(** ** Filters compose *)

Lemma list_query_add_filter (Q : Task.t → Prop) `{!∀ x, Decision (Q x)}
    (tags : option string) (l : list Task.t) :
  (∀ x y, Task.columns x = Task.columns y → Q x → Q y) →
  match tags with
  | Some ((String _ _) as tags) =>
      match parse_tag_names tags with
      | (_ :: _) as tag_names =>
          distinct (fst <$> filter (λ r : Task.t * Tag.t, Tag.name r.2 ∈ tag_names)
                              (join_tags (filter Q l)))
      | [] => filter Q l
      end
  | _ => filter Q l
  end =
  filter Q
    match tags with
    | Some ((String _ _) as tags) =>
        match parse_tag_names tags with
        | (_ :: _) as tag_names =>
            distinct (fst <$> filter (λ r : Task.t * Tag.t, Tag.name r.2 ∈ tag_names)
                                (join_tags l))
        | [] => l
        end
    | _ => l
    end.
Proof.
  intros HQ. destruct tags as [[|c s]|]; [done| |done].
  destruct (parse_tag_names (String c s)) as [|n ns]; [done|].
  rewrite join_tags_filter.
  rewrite (filter_comm (λ r : Task.t * Tag.t, Tag.name r.2 ∈ n :: ns)).
  by rewrite fmap_fst_filter, distinct_filter.
Qed.

Lemma length_filter_bool {A} (f : A → bool) (l : list A) :
  (length (filter (λ x, f x = true) l) + length (filter (λ x, f x = false) l))%nat
    = length l.
Proof.
  induction l as [|x l IH]; [done|]. destruct (f x) eqn:Hx.
  - rewrite filter_cons_True, filter_cons_False by congruence. simpl. lia.
  - rewrite filter_cons_False, filter_cons_True by congruence. simpl. lia.
Qed.

(** X16. Filters compose: the rows of a list request with the completed
    filter are the rows of the same request without it that have that
    completed value, and likewise for priority, with or without a tag
    filter; so the totals for completed=true and completed=false add up to
    the total without the completed filter. *)
Theorem list_filters_compose (order_by : list Task.t → list Task.t)
    (completed : option bool) (priority : option Z) (tags : option string)
    (limit offset : Z) (db : DB) :
  (∀ c, list_query (Some c) priority tags db =
        filter (λ x, Task.completed x = c) (list_query None priority tags db)) ∧
  (∀ p, list_query completed (Some p) tags db =
        filter (λ x, Task.priority x = p) (list_query completed None tags db)) ∧
  PaginatedTaskResponse.total
    (list_tasks order_by (Some true) priority tags limit offset db) +
  PaginatedTaskResponse.total
    (list_tasks order_by (Some false) priority tags limit offset db) =
  PaginatedTaskResponse.total
    (list_tasks order_by None priority tags limit offset db).
Proof.
  assert (∀ c, list_query (Some c) priority tags db =
        filter (λ x, Task.completed x = c) (list_query None priority tags db))
    as Hcompleted.
  { intros c. unfold list_query.
    set (l0 := filter (λ x, Task.is_deleted x = false) (db_tasks db)).
    assert (match priority with
            | Some p => filter (λ x, Task.priority x = p)
                          (filter (λ x, Task.completed x = c) l0)
            | None => filter (λ x, Task.completed x = c) l0
            end =
            filter (λ x, Task.completed x = c)
              match priority with
              | Some p => filter (λ x, Task.priority x = p) l0
              | None => l0
              end) as ->.
    { destruct priority; [apply filter_comm|done]. }
    apply list_query_add_filter.
    intros x y Hxy. unfold Task.columns in Hxy. congruence. }
  split_and!.
  - exact Hcompleted.
  - intros p. unfold list_query.
    apply list_query_add_filter.
    intros x y Hxy. unfold Task.columns in Hxy. congruence.
  - unfold list_tasks. simpl. rewrite !Hcompleted.
    rewrite <- Nat2Z.inj_add. f_equal.
    apply (length_filter_bool Task.completed).
Qed.

(** ** Consecutive pages *)

(** X17. Under one ordering of the store, consecutive pages join up: the
    page of [a] tasks at [offset] followed by the page of [b] tasks at
    [offset + a] is the page of [a + b] tasks at [offset]; nothing is
    repeated or skipped at the boundary. *)
Theorem pages_concatenate (order_by : list Task.t → list Task.t)
    (completed : option bool) (priority : option Z) (tags : option string)
    (a b offset : Z) (db : DB) :
  0 ≤ a → 0 ≤ b → 0 ≤ offset →
  PaginatedTaskResponse.tasks
    (list_tasks order_by completed priority tags a offset db) ++
  PaginatedTaskResponse.tasks
    (list_tasks order_by completed priority tags b (offset + a) db) =
  PaginatedTaskResponse.tasks
    (list_tasks order_by completed priority tags (a + b) offset db).
Proof.
  intros Ha Hb Ho. unfold list_tasks. simpl PaginatedTaskResponse.tasks.
  rewrite <- fmap_app. f_equal.
  rewrite !Z2Nat.inj_add by done. rewrite <- drop_drop.
  apply take_take_drop.
Qed.

Lemma pages_concatenate_witness :
  let c := mkClock 20000 in
  let create t := POST_tasks (TaskCreate.mk t None 3 20001 None) in
  let db := run [(c 1, create "T1"); (c 2, create "T2"); (c 3, create "T3");
                 (c 3, create "T4"); (c 5, create "T5")] empty_db in
  let page limit offset :=
    TaskResponse.id <$>
      PaginatedTaskResponse.tasks
        (list_tasks order_forward None None None limit offset db) in
  page 2 0 ++ page 2 2 = [5; 3; 4; 2].
Proof.
  intros c create db page.
  pose proof (pages_concatenate order_forward None None None 2 2 0 db
                ltac:(lia) ltac:(lia) ltac:(lia)) as Hjoin.
  change (0 + 2) with 2 in Hjoin.
  unfold page. rewrite <- fmap_app, Hjoin. reflexivity.
Defined.

(** ** A task is found by the tags it was created with *)

Lemma split_no_separator (sep : ascii) (s : string) :
  sep ∉ list_ascii_of_string s → Str.split sep s = [s].
Proof.
  induction s as [|c s IH]; intros Hsep; [done|]. simpl.
  simpl in Hsep. apply not_elem_of_cons in Hsep as [Hc Hs].
  destruct (Ascii.eqb c sep) eqn:Heq.
  - apply Ascii.eqb_eq in Heq. congruence.
  - by rewrite (IH Hs).
Qed.

Lemma parse_tag_names_single (n : string) :
  ("," : ascii) ∉ list_ascii_of_string n → Str.strip n ≠ "" →
  requested_tags (Some n) = Some [Str.lower (Str.strip n)].
Proof.
  intros Hsep Hn. unfold requested_tags, parse_tag_names.
  destruct n as [|c n]; [done|].
  rewrite split_no_separator by done.
  by rewrite filter_cons_True, filter_nil by done.
Qed.

(** X18. Creating and listing normalize tag names the same way: on a store
    that meets its key constraints, a task created with a tag name that is
    not blank and holds no comma is among the rows of a list request
    filtered by that very string as [tags] -- in any letter case and with
    any surrounding whitespace -- alone or together with completed=false or
    with the task's priority. *)
Theorem created_task_found_by_tag (clock : Clock) (body : TaskCreate.t)
    (db db' : DB) (r : TaskResponse.t) (n : string)
    (completed : option bool) (priority : option Z) :
  db_wf db →
  post_tasks clock body db = Ok (db', r) →
  n ∈ default [] (TaskCreate.tags body) →
  Str.strip n ≠ "" →
  ("," : ascii) ∉ list_ascii_of_string n →
  completed = None ∨ completed = Some false →
  priority = None ∨ priority = Some (TaskCreate.priority body) →
  ∃ x, x ∈ list_query completed priority (Some n) db' ∧
       Task.id x = TaskResponse.id r.
Proof.
  intros Hwf Hpost Hn Hstrip Hsep Hc Hp.
  assert (create_task clock body db = Ok (db', r)) as Hcreate.
  { unfold post_tasks in Hpost. by destruct (validate_TaskCreate _ _). }
  pose proof (create_task_wf _ _ _ _ _ Hwf Hcreate) as Hwf'.
  apply create_task_Ok in Hcreate as (db1 & tags & Hrun & _ & -> & ->).
  apply get_or_create_tags_spec in Hrun as (_ & _ & Hnames & _).
  exists (Task.mk (next_task_id db1)
            (TaskCreate.title body) (TaskCreate.description body)
            (TaskCreate.priority body) (TaskCreate.due_date body)
            false false (utc_now clock) (utc_now_2 clock)
            (flush_tags clock tags)).
  split; [|reflexivity].
  apply elem_of_list_query; [done|]. split.
  - simpl. apply elem_of_app. right. by left.
  - unfold matches. rewrite (parse_tag_names_single n) by done. simpl.
    split_and!.
    + done.
    + by destruct Hc as [-> | ->].
    + by destruct Hp as [-> | ->].
    + apply Exists_exists.
      assert (Str.lower (Str.strip n) ∈ Tag.name <$> tags) as Hin.
      { rewrite Hnames. unfold normalize_names. apply list_elem_of_filter. split.
        - by rewrite lower_empty.
        - by apply (list_elem_of_fmap_2 (λ n, Str.lower (Str.strip n))). }
      apply list_elem_of_fmap in Hin as (g & Hg & Hin).
      exists g. split; [by apply elem_of_flush_tags|]. rewrite <- Hg. by left.
Qed.

Lemma created_task_found_by_tag_witness :
  let clock := mkClock 20000 1 in
  let body := TaskCreate.mk "A" None 3 20001 (Some [" Urgent"; "work"]) in
  ∃ x, x ∈ list_query (Some false) (Some 3) (Some " Urgent")
             (step clock (POST_tasks body) empty_db) ∧
       Task.id x = 1.
Proof.
  intros clock body.
  apply (created_task_found_by_tag clock body empty_db _
           (TaskResponse.mk 1 "A" None 3 20001 false ["urgent"; "work"] 1 1)
           " Urgent" (Some false) (Some 3) db_wf_empty eq_refl).
  - left.
  - vm_compute. discriminate.
  - vm_compute. intros Hin. repeat (apply elem_of_cons in Hin as [Hin|Hin];
      [discriminate Hin|]). by apply elem_of_nil in Hin.
  - by right.
  - by right.
Defined.

(** ** The [tags] parameter of a list request *)

(** X19. A [tags] parameter made only of commas and whitespace (the empty
    string included) applies no tag filter: the request lists what it would
    list without [tags].  Otherwise the names asked for are the non-blank
    comma-separated pieces, each trimmed and lowercased: none is empty and
    each is in the normalized form tag names are stored in. *)
Theorem list_tags_parameter (completed : option bool) (priority : option Z)
    (tags : string) (db : DB) :
  ((∀ piece, piece ∈ Str.split "," tags → Str.strip piece = "") →
   list_query completed priority (Some tags) db =
     list_query completed priority None db) ∧
  (∀ tag_names, requested_tags (Some tags) = Some tag_names →
     tag_names ≠ [] ∧
     tag_names = (λ s, Str.lower (Str.strip s)) <$>
                   filter (λ s, Str.strip s ≠ "") (Str.split "," tags) ∧
     ∀ n, n ∈ tag_names → n ≠ "" ∧ Str.lower (Str.strip n) = n).
Proof.
  split.
  - intros Hblank. unfold list_query. destruct tags as [|c s]; [done|].
    assert (parse_tag_names (String c s) = []) as ->; [|done].
    unfold parse_tag_names. rewrite filter_none; [done|].
    intros piece Hpiece Hne. by apply Hne, Hblank.
  - intros tag_names Hreq. unfold requested_tags in Hreq.
    destruct tags as [|c s]; [done|].
    destruct (parse_tag_names (String c s)) as [|n ns] eqn:Hparse; [done|].
    injection Hreq as <-. split_and!; [done|done|].
    intros m Hm. rewrite <- Hparse in Hm. unfold parse_tag_names in Hm.
    apply list_elem_of_fmap in Hm as (piece & -> & Hpiece).
    apply list_elem_of_filter in Hpiece as [Hne _]. split.
    + by rewrite lower_empty.
    + apply normalize_idem.
Qed.

(** ** The error envelope ([app/main.py]) *)

(** X20. [http_exception_handler] keeps the exception's status code and
    always answers with an object that has an [error] entry: a detail that
    is already an object with an [error] entry is passed through unchanged,
    and any other detail is wrapped as [error] (the detail itself when it is
    a string, "Error" otherwise) with [details] null.  The not-found
    exception of the task handlers is of the first kind: it is answered
    with status 404 and its own detail, whose [details] name [task_id]. *)
Theorem http_exception_handler_envelope (exc : HTTPException) :
  response_status (http_exception_handler exc) = status_code exc ∧
  (∃ items, response_content (http_exception_handler exc) = JDict items ∧
            is_Some (items !! "error")) ∧
  (∀ items, detail exc = JDict items → is_Some (items !! "error") →
            response_content (http_exception_handler exc) = detail exc) ∧
  ((∀ items, detail exc = JDict items → items !! "error" = None) →
   response_content (http_exception_handler exc) =
     JDict {[ "error" := JStr (match detail exc with
                               | JStr s => s
                               | _ => "Error"
                               end);
              "details" := JNull ]}) ∧
  (∀ task_id,
     http_exception_handler (not_found task_id) =
       mkJSONResponse 404 (detail (not_found task_id)) ∧
     ∃ items details,
       detail (not_found task_id) = JDict items ∧
       items !! "error" = Some (JStr "Not Found") ∧
       items !! "details" = Some (JDict details) ∧
       details !! "task_id" =
         Some (JStr ("Task with id " +:+ pretty task_id +:+ " not found"))).
Proof.
  split_and!.
  - unfold http_exception_handler. destruct (detail exc); try done.
    by case_decide.
  - unfold http_exception_handler. destruct (detail exc) as [|s|n|l|items];
      try (eexists; split; [reflexivity|]; by rewrite lookup_insert_eq).
    case_decide as Herr.
    + eexists. split; [reflexivity|done].
    + eexists. split; [reflexivity|]. by rewrite lookup_insert_eq.
  - intros items Hd Herr. unfold http_exception_handler. rewrite Hd.
    by rewrite decide_True.
  - intros Hnone. unfold http_exception_handler.
    destruct (detail exc) as [|s|n|l|items]; try done.
    rewrite decide_False; [done|]. intros [v Hv].
    by rewrite (Hnone items eq_refl) in Hv.
  - intros task_id. split.
    + unfold http_exception_handler, not_found. simpl.
      rewrite decide_True; [done|]. by rewrite lookup_insert_eq.
    + eexists _, _. split; [reflexivity|]. split_and!.
      * by rewrite lookup_insert_eq.
      * rewrite lookup_insert_ne by done. by rewrite lookup_singleton_eq.
      * by rewrite lookup_singleton_eq.
Qed.

(** ** The engine and the session factory are created once ([app/core/database.py]) *)

Lemma database_states (url : string) (cs : list Database.Call) :
  let e := Database.mkEngine url 0 in
  let s := Database.mk_sessionmaker false false e in
  Database.calls url cs Database.initial = Database.initial ∧ cs = [] ∨
  Database.calls url cs Database.initial = Database.mkGlobals (Some e) None 1 ∨
  Database.calls url cs Database.initial = Database.mkGlobals (Some e) (Some s) 1.
Proof.
  intros e s. induction cs as [|c cs IH] using rev_ind; [by left|].
  unfold Database.calls in *. rewrite foldl_app. simpl.
  destruct IH as [[-> _]|[->| ->]]; destruct c; simpl; auto.
Qed.

(** X21. However [get_engine] and [get_session_local] are called, and in
    whatever order, at most one engine is ever created, and none before the
    first call; every call of [get_engine] returns that one engine, built
    from the configured URL; every call of [get_session_local] returns the
    same factory, bound to that engine, with autocommit and autoflush
    off. *)
Theorem database_singletons (url : string) (cs : list Database.Call) :
  let g := Database.calls url cs Database.initial in
  let e := Database.mkEngine url 0 in
  let s := Database.mk_sessionmaker false false e in
  (Database.engines_created g ≤ 1)%nat ∧
  (cs = [] → Database.engines_created g = 0%nat) ∧
  (Database.get_engine url g).2 = e ∧
  (Database.get_session_local url g).2 = s ∧
  (Database.engines_created (Database.get_engine url g).1 = 1)%nat ∧
  (Database.engines_created (Database.get_session_local url g).1 = 1)%nat ∧
  Database._engine (Database.get_session_local url g).1 = Some e.
Proof.
  intros g e s. subst g.
  assert (cs = [] → Database.engines_created
                      (Database.calls url cs Database.initial) = 0%nat)
    as Hnone by (by intros ->).
  destruct (database_states url cs) as [[Heq _]|[Heq|Heq]];
    rewrite Heq in *; split_and!; try done; simpl; lia.
Qed.

(** ** The size and order of a page *)

(** X22. For a limit and an offset that are not negative and any ordering
    of the store that sorts by creation time descending, a page holds
    exactly min(limit, total - offset) tasks (none when offset is past the
    total), and within the page no task comes before one created later. *)
Theorem page_size_and_order (order_by : list Task.t → list Task.t)
    (completed : option bool) (priority : option Z) (tags : option string)
    (limit offset : Z) (db : DB) :
  orders_by_created_at_desc order_by →
  0 ≤ limit → 0 ≤ offset →
  Z.of_nat (length (PaginatedTaskResponse.tasks
                      (list_tasks order_by completed priority tags limit offset db)))
    = Z.max 0 (Z.min limit
                 (PaginatedTaskResponse.total
                    (list_tasks order_by completed priority tags limit offset db)
                  - offset)) ∧
  StronglySorted
    (λ a b, TaskResponse.created_at b ≤ TaskResponse.created_at a)
    (PaginatedTaskResponse.tasks
       (list_tasks order_by completed priority tags limit offset db)).
Proof.
  intros Horder Hlimit Hoffset. unfold list_tasks.
  simpl PaginatedTaskResponse.tasks. simpl PaginatedTaskResponse.total.
  destruct (Horder (list_query completed priority tags db)) as [Hperm Hsorted].
  split.
  - rewrite length_fmap, length_take, length_drop, Hperm. lia.
  - apply (StronglySorted_fmap _ created_at_desc); [done|].
    apply Sorted_StronglySorted in Hsorted; [|apply _].
    set (l := order_by (list_query completed priority tags db)) in *.
    rewrite <- (take_drop (Z.to_nat offset) l) in Hsorted.
    apply StronglySorted_app_1_r in Hsorted.
    rewrite <- (take_drop (Z.to_nat limit) (drop (Z.to_nat offset) l)) in Hsorted.
    by apply StronglySorted_app_1_l in Hsorted.
Qed.

Lemma page_size_and_order_witness :
  let c := mkClock 20000 in
  let create t := POST_tasks (TaskCreate.mk t None 3 20001 None) in
  let db := run [(c 1, create "T1"); (c 2, create "T2"); (c 3, create "T3")]
              empty_db in
  length (PaginatedTaskResponse.tasks
            (list_tasks order_forward None None None 2 2 db)) = 1%nat.
Proof.
  intros c create db.
  destruct (page_size_and_order order_forward None None None 2 2 db
              order_forward_ok ltac:(lia) ltac:(lia)) as [Hsize _].
  apply Nat2Z.inj. rewrite Hsize. reflexivity.
Defined.

(** ** Listing and fetching agree *)

Lemma find_task_live x db :
  db_wf db → x ∈ db_tasks db → Task.is_deleted x = false →
  find_task (Task.id x) db = Some x.
Proof.
  intros Hwf Hx Hlive. unfold find_task.
  destruct (filter _ (db_tasks db)) as [|y l] eqn:Hf.
  - exfalso. by eapply (filter_nil_not_elem_of _ _ x Hf).
  - assert (y ∈ filter (λ x0, Task.id x0 = Task.id x ∧ Task.is_deleted x0 = false)
                  (db_tasks db)) as Hy by (rewrite Hf; left).
    apply list_elem_of_filter in Hy as [[Hid _] Hy]. simpl. f_equal.
    eapply NoDup_fmap_eq; [apply (wf_task_ids _ Hwf)|done..].
Qed.

(** X23. Listing and fetching agree: on a store that meets its key
    constraints, every task in a page of a list request, under any filters
    and any ordering that sorts by creation time descending, is returned
    by a fetch of its id with the very same representation. *)
Theorem listed_task_is_fetched (order_by : list Task.t → list Task.t)
    (completed : option bool) (priority : option Z) (tags : option string)
    (limit offset : Z) (db : DB) (t : TaskResponse.t) :
  db_wf db →
  orders_by_created_at_desc order_by →
  t ∈ PaginatedTaskResponse.tasks
        (list_tasks order_by completed priority tags limit offset db) →
  get_task (TaskResponse.id t) db = Ok t.
Proof.
  intros Hwf Horder Ht. simpl in Ht.
  apply list_elem_of_fmap in Ht as (x & -> & Hx).
  apply elem_of_page in Hx. rewrite (proj1 (Horder _)) in Hx.
  apply elem_of_list_query in Hx as [Hx Hmatch]; [|done].
  unfold get_task. simpl TaskResponse.id. rewrite find_task_live; [done..|].
  apply Hmatch.
Qed.

Lemma listed_task_is_fetched_witness :
  let c := mkClock 20000 in
  let db := run [(c 1, POST_tasks (TaskCreate.mk "A" None 3 20001 (Some ["work"])));
                 (c 2, POST_tasks (TaskCreate.mk "B" None 5 20001 None))] empty_db in
  let t := TaskResponse.mk 1 "A" None 3 20001 false ["work"] 1 1 in
  get_task 1 db = Ok t.
Proof.
  intros c db t.
  apply (listed_task_is_fetched order_forward None None (Some "work") 10 0 db t).
  - apply reachable_wf. by eexists.
  - exact order_forward_ok.
  - vm_compute. left.
Defined.

(** ** Which tags the resolver creates *)

Lemma get_or_create_tags_rows names :
  ∀ db g, g ∈ db_tags (get_or_create_tags db names).1 →
          g ∈ db_tags db ∨ Tag.name g ∈ normalize_names names.
Proof.
  induction names as [|name rest IH]; intros db g; simpl; [by left|].
  unfold normalize_names. rewrite fmap_cons.
  case_decide as Hname.
  - rewrite filter_cons_False by tauto. apply IH.
  - rewrite filter_cons_True by done.
    destruct (find_tag _ db) as [g0|].
    + specialize (IH db g). destruct (get_or_create_tags db rest).
      intros Hg. destruct (IH Hg) as [?|?]; [by left|right; by right].
    + unfold add_tag.
      match goal with |- context [get_or_create_tags ?d rest] =>
        specialize (IH d g); destruct (get_or_create_tags d rest) end.
      intros Hg. destruct (IH Hg) as [Hin|Hin].
      * simpl in Hin. apply elem_of_app in Hin as [Hin|Hin]; [by left|].
        apply list_elem_of_singleton in Hin as ->. right. by left.
      * right. by right.
Qed.

(** X24. The resolver creates exactly one tag per distinct normalized name
    that the tag table lacks, and nothing else: after resolving a list of
    names against a store that meets its key constraints, the names in the
    tag table are those it held before together with the normalized
    non-empty names of the list, each once. *)
Theorem get_or_create_tags_creates (names : list string) (db db1 : DB)
    (tags : list Tag.t) :
  db_wf db →
  get_or_create_tags db names = (db1, tags) →
  (∀ n, n ∈ Tag.name <$> db_tags db1 ↔
        n ∈ Tag.name <$> db_tags db ∨ n ∈ normalize_names names) ∧
  Tag.name <$> db_tags db1 ≡ₚ
    (Tag.name <$> db_tags db) ++
    remove_dups (filter (λ n, n ∉ Tag.name <$> db_tags db) (normalize_names names)) ∧
  length (db_tags db1) =
    (length (db_tags db) +
     length (remove_dups (filter (λ n, n ∉ Tag.name <$> db_tags db)
                            (normalize_names names))))%nat.
Proof.
  intros Hwf Hrun.
  pose proof (get_or_create_tags_wf _ _ _ _ Hwf Hrun) as Hwf1.
  pose proof (get_or_create_tags_rows names db) as Hrows. rewrite Hrun in Hrows.
  apply get_or_create_tags_spec in Hrun as (_ & _ & Hnames & Hsub & Htags & _).
  assert (∀ n, n ∈ Tag.name <$> db_tags db1 ↔
            n ∈ Tag.name <$> db_tags db ∨ n ∈ normalize_names names) as Hset.
  { intros n. split.
    - intros (g & -> & Hg)%list_elem_of_fmap.
      destruct (Hrows g Hg) as [Hin|Hin]; [left|by right].
      by apply list_elem_of_fmap_2.
    - intros [(g & -> & Hg)%list_elem_of_fmap|Hn].
      + by apply list_elem_of_fmap_2, Hsub.
      + rewrite <- Hnames in Hn. apply list_elem_of_fmap in Hn as (g & -> & Hg).
        by apply list_elem_of_fmap_2, Htags. }
  assert (Tag.name <$> db_tags db1 ≡ₚ
            (Tag.name <$> db_tags db) ++
            remove_dups (filter (λ n, n ∉ Tag.name <$> db_tags db)
                           (normalize_names names))) as Hperm.
  { apply NoDup_Permutation.
    - apply Hwf1.
    - apply NoDup_app. split_and!; [apply Hwf| |apply NoDup_remove_dups].
      intros n Hold Hnew. rewrite elem_of_remove_dups in Hnew.
      by apply list_elem_of_filter in Hnew as [Hout _].
    - intros n. rewrite Hset, elem_of_app, elem_of_remove_dups, list_elem_of_filter.
      destruct (decide (n ∈ Tag.name <$> db_tags db)); tauto. }
  split_and!; [done..|].
  apply Permutation_length in Hperm. by rewrite length_app, !length_fmap in Hperm.
Qed.

Lemma get_or_create_tags_creates_witness :
  let db := (get_or_create_tags empty_db ["work"]).1 in
  let r := get_or_create_tags db ["Home"; "WORK"; " home "; ""; "x"] in
  length (db_tags r.1) = 3%nat.
Proof.
  intros db r.
  assert (db_wf db) as Hwf
    by (apply (get_or_create_tags_wf ["work"] empty_db db
                 (get_or_create_tags empty_db ["work"]).2 db_wf_empty); reflexivity).
  destruct (get_or_create_tags_creates ["Home"; "WORK"; " home "; ""; "x"]
              db r.1 r.2 Hwf eq_refl) as (_ & _ & Hlen).
  rewrite Hlen. reflexivity.
Defined.

(** ** Stored tasks stay within the validated bounds *)

Lemma validate_TaskCreate_nil today body :
  validate_TaskCreate today body = [] →
  (1 ≤ String.length (TaskCreate.title body) ≤ 200)%nat ∧
  1 ≤ TaskCreate.priority body ≤ 5 ∧ today ≤ TaskCreate.due_date body.
Proof.
  unfold validate_TaskCreate. intros Hvalid.
  apply app_nil in Hvalid as [Ht Hvalid]. apply app_nil in Hvalid as [Hp Hd].
  apply field_errors_nil in Ht, Hp, Hd.
  unfold check_length in Ht. unfold check_priority, check_range in Hp.
  unfold due_date_not_in_past in Hd.
  repeat case_decide; try done. lia.
Qed.

Lemma validate_TaskUpdate_nil today body :
  validate_TaskUpdate today body = [] →
  (∀ s, TaskUpdate.title body = Some (Some s) → (1 ≤ String.length s ≤ 200)%nat) ∧
  (∀ p, TaskUpdate.priority body = Some (Some p) → 1 ≤ p ≤ 5) ∧
  (∀ d, TaskUpdate.due_date body = Some (Some d) → today ≤ d).
Proof.
  unfold validate_TaskUpdate. intros Hvalid.
  apply app_nil in Hvalid as [Ht Hvalid]. apply app_nil in Hvalid as [Hp Hd].
  apply field_errors_nil in Ht, Hp, Hd. split_and!.
  - intros s Hs. rewrite Hs in Ht. simpl in Ht. unfold check_length in Ht.
    repeat case_decide; try done. lia.
  - intros p Hp'. rewrite Hp' in Hp. simpl in Hp.
    unfold check_priority, check_range in Hp. repeat case_decide; try done. lia.
  - intros d Hd'. rewrite Hd' in Hd. simpl in Hd.
    unfold due_date_not_in_past in Hd. case_decide; try done. lia.
Qed.

(** X25. Every task in a reachable store has a title of 1 to 200
    characters and a priority between 1 and 5: no create or partial update
    that gets past validation stores a value outside these bounds, and the
    other requests do not touch them. *)
Theorem reachable_tasks_within_bounds (db : DB) (x : Task.t) :
  reachable db → x ∈ db_tasks db →
  (1 ≤ String.length (Task.title x) ≤ 200)%nat ∧ 1 ≤ Task.priority x ≤ 5.
Proof.
  intros [trace ->]. revert x.
  assert (∀ db0,
    (∀ x, x ∈ db_tasks db0 →
       (1 ≤ String.length (Task.title x) ≤ 200)%nat ∧ 1 ≤ Task.priority x ≤ 5) →
    ∀ x, x ∈ db_tasks (run trace db0) →
       (1 ≤ String.length (Task.title x) ≤ 200)%nat ∧ 1 ≤ Task.priority x ≤ 5)
    as Hrun.
  { induction trace as [|[clock req] trace IH]; intros db0 H0; [done|].
    rewrite run_cons. apply IH. clear IH.
    destruct req as [body|q|task_id|task_id body|task_id]; unfold step; try done.
    - destruct (post_tasks clock body db0) as [[db' r]| | |] eqn:Hpost; try done.
      unfold post_tasks in Hpost.
      destruct (validate_TaskCreate _ _) eqn:Hvalid; [|done].
      apply validate_TaskCreate_nil in Hvalid as (Ht & Hp & _).
      apply create_task_Ok in Hpost as (db1 & tags & Hrun & _ & -> & _).
      apply get_or_create_tags_spec in Hrun as (Htasks & _).
      intros x Hx. simpl in Hx. rewrite Htasks in Hx.
      apply elem_of_app in Hx as [Hx|Hx]; [by apply H0|].
      by apply list_elem_of_singleton in Hx as ->.
    - destruct (patch_task clock task_id body db0) as [[db' r]| | |] eqn:Hpatch;
        try done.
      unfold patch_task in Hpatch.
      destruct (validate_TaskUpdate _ _) eqn:Hvalid; [|done].
      apply validate_TaskUpdate_nil in Hvalid as (Ht & Hp & _).
      apply update_task_Ok in Hpatch
        as (task & db1 & task' & Hfind & -> & _ & Htasks & _ & _ & _ & _
            & Htitle & _ & Hprio & _).
      apply find_task_Some in Hfind as (Hin & _ & _).
      intros x Hx. apply elem_of_replace_task in Hx as [->|[Hx _]].
      + destruct (H0 task Hin) as [Ht0 Hp0]. split.
        * destruct (TaskUpdate.title body) as [[s|]|] eqn:Hs; simpl in Htitle;
            try done; injection Htitle as ->; [by apply Ht|done].
        * destruct (TaskUpdate.priority body) as [[p|]|] eqn:Hpr; simpl in Hprio;
            try done; injection Hprio as ->; [by apply Hp|done].
      + apply H0. by rewrite <- Htasks.
    - destruct (delete_task clock task_id db0) as [db'| | |] eqn:Hdel; try done.
      unfold delete_task in Hdel.
      destruct (find_task task_id db0) as [task|] eqn:Hfind; [|done].
      injection Hdel as <-. apply find_task_Some in Hfind as (Hin & _ & _).
      intros x Hx. apply elem_of_replace_task in Hx as [->|[Hx _]]; [|by apply H0].
      by apply (H0 task). }
  apply Hrun. intros x Hx. by apply elem_of_nil in Hx.
Qed.

Lemma reachable_tasks_within_bounds_witness :
  let c := mkClock 20000 in
  let long := String.concat "" (replicate 201 "x") in
  let db := run [(c 1, POST_tasks (TaskCreate.mk "A" None 5 20001 None));
                 (c 2, PATCH_task 1 (TaskUpdate.mk (Some (Some long)) None None
                                       None None None));
                 (c 3, PATCH_task 1 (TaskUpdate.mk None None (Some (Some 9)) None
                                       None None));
                 (c 4, POST_tasks (TaskCreate.mk "" None 1 20001 None))]
              empty_db in
  let x := Task.mk 1 "A" None 5 20001 false false 1 1 [] in
  db_tasks db = [x] ∧
  (1 ≤ String.length (Task.title x) ≤ 200)%nat ∧ 1 ≤ Task.priority x ≤ 5.
Proof.
  intros c long db x.
  assert (db_tasks db = [x]) as Hrows by (vm_compute; reflexivity).
  split; [exact Hrows|].
  apply (reachable_tasks_within_bounds db x); [by eexists|].
  rewrite Hrows. apply list_elem_of_here.
Defined.

(** ** When the store refuses a commit *)

Lemma default_null {A} (x : A) (field : option (option A)) :
  default (Some x) field = None ↔ field = Some None.
Proof. destruct field as [[v|]|]; simpl; split; congruence. Qed.

Lemma flush_task_None clock row a :
  flush_task clock row a = None ↔
  Attrs.title a = None ∨ Attrs.priority a = None ∨ Attrs.due_date a = None ∨
  Attrs.completed a = None.
Proof.
  destruct a as [ti de pr du co tg]. unfold flush_task. simpl.
  destruct ti as [ti|], pr as [pr|], du as [du|], co as [co|]; simpl;
    try (split; [tauto|done]).
  split; [done|]. intros [|[|[|]]]; done.
Qed.

(** X26. The outcome of [update_task] is decided by the task and the
    scalar fields of the body alone: it is not-found when no live task has
    the id; for a live task the store refuses the commit exactly when the
    body sets [title], [priority], [due_date] or [completed] to null, and in
    every other case the update succeeds and answers for that task.  No tag
    list, whatever names it repeats, makes an update fail. *)
Theorem update_task_outcome (clock : Clock) (task_id : Z) (body : TaskUpdate.t)
    (db : DB) :
  let null_column :=
    TaskUpdate.title body = Some None ∨
    TaskUpdate.priority body = Some None ∨
    TaskUpdate.due_date body = Some None ∨
    TaskUpdate.completed body = Some None in
  match find_task task_id db with
  | None => update_task clock task_id body db = NotFound task_id
  | Some task =>
      (null_column → update_task clock task_id body db = IntegrityError) ∧
      (¬ null_column →
       ∃ db' r, update_task clock task_id body db = Ok (db', r) ∧
                TaskResponse.id r = task_id ∧
                get_task task_id db' = Ok r)
  end.
Proof.
  intros null_column.
  destruct (find_task task_id db) as [task|] eqn:Hfind;
    [|unfold update_task; by rewrite Hfind].
  split.
  - intros Hnull. unfold update_task. rewrite Hfind. cbv zeta.
    rewrite set_fields_spec.
    destruct (match TaskUpdate.tags body with
              | Some (Some names) =>
                  let '(db1, tags) := get_or_create_tags db names in
                  (db1, Some tags)
              | _ => (db, Attrs.tags (Attrs.of_task task))
              end) as [db1 tags].
    match goal with |- context [flush_task ?c ?r ?a] =>
      assert (flush_task c r a = None) as ->; [|done] end.
    apply flush_task_None. simpl. by rewrite !default_null.
  - intros Hok.
    destruct (update_task_not_null clock task_id body db task Hfind)
      as (db' & r & Hupd); try (intros ?; apply Hok; unfold null_column; tauto).
    exists db', r. split; [done|].
    destruct (find_task_after_update _ _ _ _ _ _ Hupd) as (task' & Hfind' & ->).
    split.
    + apply find_task_Some in Hfind' as (_ & Hid & _). exact Hid.
    + unfold get_task. by rewrite Hfind'.
Qed.
